(** * FAISSVectorStore: the in-process, namespace-partitioned flat index

    A shallow embedding of [FAISSVectorStore] from
    [softtek_llm/vectorStores.py] and the properties its specification
    states about it.

    The store keeps two Python dictionaries keyed by namespace ([None] is
    the default namespace): [local_id], the record lists, and [index], the
    flat indexes.  Methods mutate these dictionaries and raise exceptions;
    a mutation made before an exception is raised stays.  They are
    embedded in a state-and-exception monad over the pair of dictionaries.
    Dictionary values are dynamically typed in the source, and
    [load_local] relies on that, so they are embedded as a tagged union
    [PyObj]. *)

From Stdlib Require Import ZArith Floats Sorted.
From stdpp Require Import gmap strings list fin_maps.

Set Warnings "-clear-no-such-hyp".

(** ** Exceptions *)

(** The argument of a [ValueError] or [RuntimeError]: one constructor per
    message of the source. *)
Inductive message :=
| BothOrNeither                                  (* "You must provide both `local_id` and `index` or neither." *)
| NotAllIdsFound                                 (* "Did not found all the ids provided." *)
| IdNotFound (id : string) (ns : option string)  (* "Did not found the id {id} in the namespace {namespace}." *)
| Duplicated (id : string)                       (* "The id {vector.id} is duplicated. The ids must be unique." *)
| WrongSize (expected got : nat)                 (* "Vectors must be size {d} but got size {len} instead." *)
| NoNamespace (ns : option string)               (* "The namespace {namespace} does not exist." *)
| NeedIdsOrDeleteAll                             (* "You must provide either `ids` or `delete_all=True`" *)
| NeedVectorOrId                                 (* "You must provide either `vector` or `id`." *)
| NoDirectory (dir : string)                     (* "The given directory does not exist: {dir_path}." *)
| BadFiles (ns : option string).                 (* "Something wrong happend with the file(s) for the namespace `{namespace}`" *)

Inductive exn :=
| ValueError (m : message)
| RuntimeError (m : message)
| TypeError
| AttributeError
| KeyError
| IndexError
| UnboundLocalError.

(** The error kinds of the specification (section 7), and the kind each
    exception of the source stands for. *)
Inductive ErrKind :=
| InvalidArgument | DuplicateId | DimensionMismatch | NotFound | CorruptData.

Definition kind_of (e : exn) : option ErrKind :=
  match e with
  | ValueError (Duplicated _) => Some DuplicateId
  | ValueError (WrongSize _ _) => Some DimensionMismatch
  | ValueError NotAllIdsFound | ValueError (IdNotFound _ _)
  | ValueError (NoNamespace _) | ValueError (NoDirectory _) => Some NotFound
  | ValueError NeedIdsOrDeleteAll | ValueError NeedVectorOrId
  | ValueError BothOrNeither => Some InvalidArgument
  | RuntimeError (BadFiles _) => Some CorruptData
  | _ => None
  end.

(** ** The monad of a method: state and exceptions *)

Inductive outcome (A : Type) :=
| Return (a : A)
| Raise (e : exn).
Arguments Return {A} a.
Arguments Raise {A} e.

Definition Py (S A : Type) : Type := S → outcome A * S.

Definition ret {S A} (a : A) : Py S A := λ s, (Return a, s).
Definition raise {S A} (e : exn) : Py S A := λ s, (Raise e, s).
Definition bind {S A B} (m : Py S A) (k : A → Py S B) : Py S B :=
  λ s, match m s with
       | (Return a, s') => k a s'
       | (Raise e, s') => (Raise e, s')
       end.
Definition get_state {S} : Py S S := λ s, (Return s, s).
Definition lift {S A} (o : outcome A) : Py S A := λ s, (o, s).

Notation "x <~ m ;; k" := (bind m (λ x, k))
  (at level 100, m at next level, right associativity,
   format "'[v' x  <~  m  ;; '/' k ']'").

(** Binding an outcome that touches no state (used by the class method
    [load_local] and by file writes). *)
Definition obind {A B} (o : outcome A) (k : A → outcome B) : outcome B :=
  match o with
  | Return a => k a
  | Raise e => Raise e
  end.

(** ** Scalars

    Embeddings are sequences of floating-point numbers.  The operations
    on them that the store calls are taken as an interface, so that every
    theorem holds for any implementation of the numeric kernel. *)
Class FloatOps (F : Type) := {
  normalize_L2 : list F → list F;  (* faiss.normalize_L2 on one row *)
  inner_product : list F → list F → F;
  score_lt : F → F → bool;
  no_score : F                     (* the score that pads a short result *)
}.

(** ** Vector *)

Inductive MetaVal (F : Type) :=
| MStr (s : string)
| MNum (x : F).
Arguments MStr {F} s.
Arguments MNum {F} x.

(** Modelled from the spec: the class [Vector] of [softtek_llm.schemas],
    imported by the source but not part of it.  Specification section 3: an
    [id] string, the [embeddings], and a [metadata] mapping from string
    keys to values. *)
Module Vector.
Record t (F : Type) := mk {
  id : string;
  embeddings : list F;
  metadata : gmap string (MetaVal F)
}.
Arguments mk {F} id embeddings metadata.
Arguments id {F} t.
Arguments embeddings {F} t.
Arguments metadata {F} t.
End Vector.

(** ** IndexFlatIP *)

(** The rows of [l] whose position, counted from [i], is not in [x]. *)
Fixpoint drop_positions {A} (x : list nat) (i : nat) (l : list A) : list A :=
  match l with
  | [] => []
  | a :: l' =>
      if bool_decide (i ∈ x) then drop_positions x (S i) l'
      else a :: drop_positions x (S i) l'
  end.

(** Modelled from the spec: the flat inner-product index of the faiss
    library ([IndexFlatIP]), which the source imports.  Specification
    section 4.1: a fixed dimension and an ordered sequence of rows, with
    append, positional removal that compacts the kept rows in order and
    fails on a position out of range, reset, and a top-k search by inner
    product that pads a short result with the position -1 and breaks ties
    in favour of the lower position. *)
Module IndexFlatIP.
Section Flat.
Context {F : Type} `{!FloatOps F}.

Record t := mk { d : nat; rows : list (list F) }.

Definition new (dim : nat) : t := mk dim [].

Definition ntotal (ix : t) : nat := length (rows ix).

Definition add (x : list (list F)) (ix : t) : t := mk (d ix) (rows ix ++ x).

Definition reset (ix : t) : t := mk (d ix) [].

Definition remove_ids (x : list nat) (ix : t) : option t :=
  if forallb (λ p, p <? ntotal ix) x
  then Some (mk (d ix) (drop_positions x 0 (rows ix)))
  else None.

Fixpoint scored (q : list F) (i : nat) (l : list (list F)) : list (F * Z) :=
  match l with
  | [] => []
  | row :: l' => (inner_product q row, Z.of_nat i) :: scored q (S i) l'
  end.

Fixpoint rank_insert (c : F * Z) (l : list (F * Z)) : list (F * Z) :=
  match l with
  | [] => [c]
  | c' :: l' =>
      if score_lt (fst c) (fst c') then c' :: rank_insert c l' else c :: l
  end.

Definition ranked (q : list F) (ix : t) : list (F * Z) :=
  foldr rank_insert [] (scored q 0 (rows ix)).

(** The [k] best rows, as pairs of a score and a position, padded to [k]
    pairs. *)
Definition hits (x : list F) (k : nat) (ix : t) : list (F * Z) :=
  let top := take k (ranked x ix) in
  top ++ replicate (k - length top) (no_score, (-1)%Z).

(** Returns [(D, I)]: the scores and the positions. *)
Definition search (x : list F) (k : nat) (ix : t) : list F * list Z :=
  ((hits x k ix).*1, (hits x k ix).*2).

End Flat.
Arguments t F : clear implicits.
End IndexFlatIP.

(** ** The store *)

Section Store.
Context {F : Type} `{!FloatOps F}.

(** A value of one of the two dictionaries. *)
Inductive PyObj :=
| PyList (l : list (Vector.t F))
| PyIndex (ix : IndexFlatIP.t F).

(** The two private attributes [__local_id] and [__index]; the key [None]
    is the default namespace. *)
Record FAISSVectorStore := {
  local_id : gmap (option string) PyObj;
  index : gmap (option string) PyObj
}.

Abbreviation M := (Py FAISSVectorStore).

(** [self.__local_id[namespace]] and [self.__index[namespace]] *)
Definition get_local_id (namespace : option string) : M PyObj :=
  λ s, match local_id s !! namespace with
       | Some o => (Return o, s)
       | None => (Raise KeyError, s)
       end.

Definition get_index (namespace : option string) : M PyObj :=
  λ s, match index s !! namespace with
       | Some o => (Return o, s)
       | None => (Raise KeyError, s)
       end.

(** [self.__local_id[namespace] = o] and [self.__index[namespace] = o];
    also used for the in-place mutation of the object stored there. *)
Definition set_local_id (namespace : option string) (o : PyObj) : M unit :=
  λ s, (Return tt, {| local_id := <[namespace := o]> (local_id s); index := index s |}).

Definition set_index (namespace : option string) (o : PyObj) : M unit :=
  λ s, (Return tt, {| local_id := local_id s; index := <[namespace := o]> (index s) |}).

(** Iterating over a dictionary value: a faiss index is not iterable. *)
Definition iter_list (o : PyObj) : M (list (Vector.t F)) :=
  match o with
  | PyList l => ret l
  | PyIndex _ => raise TypeError
  end.

(** Reading an attribute or method of a faiss index ([d], [ntotal], [add],
    [reset], [remove_ids], [search]): a list has none of them. *)
Definition attr_index (o : PyObj) : M (IndexFlatIP.t F) :=
  match o with
  | PyIndex ix => ret ix
  | PyList _ => raise AttributeError
  end.

(** [__init__(self, local_id=None, index=None, d=1536)]; a dictionary is
    truthy when it is not empty. *)
Definition __init__ (local_id_ index_ : option (gmap (option string) PyObj))
    (d : nat) : outcome FAISSVectorStore :=
  match local_id_, index_ with
  | Some l, Some i =>
      if bool_decide (l ≠ ∅) && bool_decide (i ≠ ∅)
      then Return {| local_id := l; index := i |}
      else Raise (ValueError BothOrNeither)
  | None, None =>
      Return {| local_id := {[ None := PyList [] ]};
                index := {[ None := PyIndex (IndexFlatIP.new d) ]} |}
  | _, _ => Raise (ValueError BothOrNeither)
  end.

(** [[i for i, vector in enumerate(l) if vector.id in ids]], counting
    from [i]. *)
Fixpoint positions_in (ids : list string) (i : nat) (l : list (Vector.t F)) : list nat :=
  match l with
  | [] => []
  | vector :: l' =>
      if bool_decide (Vector.id vector ∈ ids) then i :: positions_in ids (S i) l'
      else positions_in ids (S i) l'
  end.

Definition __return_ids (ids : list string) (namespace : option string) : M (list nat) :=
  o <~ get_local_id namespace ;;
  l <~ iter_list o ;;
  let ids_to_return := positions_in ids 0 l in
  if bool_decide (length ids_to_return ≠ length ids)
  then raise (ValueError NotAllIdsFound)
  else ret ids_to_return.

Definition __return_embeddings (id : string) (namespace : option string) : M (list F) :=
  o <~ get_local_id namespace ;;
  l <~ iter_list o ;;
  match List.find (λ vector, bool_decide (Vector.id vector = id)) l with
  | Some vector => ret (normalize_L2 (Vector.embeddings vector))
  | None => raise (ValueError (IdNotFound id namespace))
  end.

(** The first loop of [__return_vectors], from position [i_] of [ids]
    on.  [metadata.update] changes the dictionary of the stored record in
    place, so the record list is written back at once; [Vector(...)]
    builds the returned record from the updated dictionary. *)
Fixpoint return_vectors_loop (namespace : option string) (i_ : nat) (ids : list Z)
    (distance : list F) (vectors_to_return : list (Vector.t F))
    (to_update : list (nat * Vector.t F))
    : M (list (Vector.t F) * list (nat * Vector.t F)) :=
  match ids with
  | [] => ret (vectors_to_return, to_update)
  | id :: ids' =>
      if bool_decide (id ≠ (-1)%Z) then
        o <~ get_local_id namespace ;;
        l <~ iter_list o ;;
        match (if bool_decide (0 ≤ id)%Z then l !! Z.to_nat id else None) with
        | None => raise AttributeError   (* vector_ is None *)
        | Some vector_ =>
            match distance !! i_ with
            | None => raise IndexError
            | Some score =>
                let metadata := <["score" := MNum score]> (Vector.metadata vector_) in
                let new_vector :=
                  Vector.mk (Vector.id vector_) (Vector.embeddings vector_) metadata in
                _ <~ set_local_id namespace
                       (PyList (<[Z.to_nat id :=
                                   Vector.mk (Vector.id vector_)
                                     (Vector.embeddings vector_) metadata]> l)) ;;
                return_vectors_loop namespace (S i_) ids' distance
                  (vectors_to_return ++ [new_vector])
                  (to_update ++ [(Z.to_nat id, new_vector)])
            end
        end
      else
        return_vectors_loop namespace (S i_) ids' distance vectors_to_return to_update
  end.

(** The second loop: [self.__local_id[namespace][i] = vector]. *)
Fixpoint write_back (namespace : option string) (to_update : list (nat * Vector.t F)) : M unit :=
  match to_update with
  | [] => ret tt
  | (i, vector) :: rest =>
      o <~ get_local_id namespace ;;
      match o with
      | PyList l =>
          if bool_decide (i < length l) then
            _ <~ set_local_id namespace (PyList (<[i := vector]> l)) ;;
            write_back namespace rest
          else raise IndexError
      | PyIndex _ => raise TypeError
      end
  end.

Definition __return_vectors (ids : list Z) (distance : list F)
    (namespace : option string) : M (list (Vector.t F)) :=
  r <~ return_vectors_loop namespace 0 ids distance [] [] ;;
  _ <~ write_back namespace r.2 ;;
  ret r.1.

Definition __remove_ids (ids : list string) (namespace : option string) : M unit :=
  o <~ get_local_id namespace ;;
  l <~ iter_list o ;;
  let new_list := filter (λ vector, Vector.id vector ∉ ids) l in
  if bool_decide (length new_list ≠ length ids)
  then raise (ValueError NotAllIdsFound)
  else set_local_id namespace (PyList new_list).

(** The validation loop of [add]; [ids_vector] holds the ids of the
    records of the call seen so far. *)
Fixpoint add_check (namespace : option string) (ids ids_vector : list string)
    (vectors : list (Vector.t F)) : M unit :=
  match vectors with
  | [] => ret tt
  | vector :: rest =>
      if bool_decide (Vector.id vector ∈ ids) || bool_decide (Vector.id vector ∈ ids_vector)
      then raise (ValueError (Duplicated (Vector.id vector)))
      else
        o <~ get_index namespace ;;
        ix <~ attr_index o ;;
        if bool_decide (length (Vector.embeddings vector) ≠ IndexFlatIP.d ix)
        then raise (ValueError (WrongSize (IndexFlatIP.d ix)
                                  (length (Vector.embeddings vector))))
        else add_check namespace ids (ids_vector ++ [Vector.id vector]) rest
  end.

Definition add (vectors : list (Vector.t F)) (namespace : option string) : M unit :=
  s <~ get_state ;;
  _ <~ (if bool_decide (namespace ∉ dom (local_id s)) then
          _ <~ set_local_id namespace (PyList []) ;;
          match vectors with
          | [] => raise IndexError       (* vectors[0] *)
          | v0 :: _ =>
              set_index namespace
                (PyIndex (IndexFlatIP.new (length (Vector.embeddings v0))))
          end
        else ret tt) ;;
  o <~ get_local_id namespace ;;
  l <~ iter_list o ;;
  let ids := Vector.id <$> l in
  _ <~ add_check namespace ids [] vectors ;;
  let data_to_add := (λ vector, normalize_L2 (Vector.embeddings vector)) <$> vectors in
  oi <~ get_index namespace ;;
  ix <~ attr_index oi ;;
  _ <~ set_index namespace (PyIndex (IndexFlatIP.add data_to_add ix)) ;;
  o' <~ get_local_id namespace ;;
  match o' with
  | PyList l' => set_local_id namespace (PyList (l' ++ vectors))
  | PyIndex _ => raise TypeError
  end.

Definition delete (ids : option (list string)) (delete_all : bool)
    (namespace : option string) : M unit :=
  s <~ get_state ;;
  if bool_decide (namespace ∉ dom (local_id s)) then
    raise (ValueError (NoNamespace namespace))
  else
    match ids with
    | Some ids =>
        ids_to_delete <~ __return_ids ids namespace ;;
        oi <~ get_index namespace ;;
        ix <~ attr_index oi ;;
        match IndexFlatIP.remove_ids ids_to_delete ix with
        | None => raise IndexError
        | Some ix' =>
            _ <~ set_index namespace (PyIndex ix') ;;
            __remove_ids ids namespace
        end
    | None =>
        if delete_all then
          oi <~ get_index namespace ;;
          ix <~ attr_index oi ;;
          _ <~ set_index namespace (PyIndex (IndexFlatIP.reset ix)) ;;
          o <~ get_local_id namespace ;;
          match o with
          | PyList _ => set_local_id namespace (PyList [])
          | PyIndex _ => raise AttributeError   (* no method clear *)
          end
        else raise (ValueError NeedIdsOrDeleteAll)
    end.

(** A call that passes every argument by keyword, to a method with the
    parameters [params] (after [self], none with a default): a keyword that
    is not a parameter, or a parameter left without a value, is a
    [TypeError]. *)
Definition call_keywords (params keywords : list string) : outcome unit :=
  if forallb (λ k, bool_decide (k ∈ params)) keywords
     && forallb (λ p, bool_decide (p ∈ keywords)) params
  then Return tt
  else Raise TypeError.

(** [search(self, vector=None, id=None, top_k=1, namespace=None, **kwargs)].
    A [Vector] is truthy; an id is truthy when it is not the empty string.
    [namespace] is a parameter of its own, so [kwargs] never holds the key
    ["namespace"]. *)
Definition search (vector : option (Vector.t F)) (id : option string) (top_k : nat)
    (namespace : option string) : M (list (Vector.t F)) :=
  s <~ get_state ;;
  if bool_decide (namespace ∉ dom (local_id s)) then ret []
  else
    oi <~ get_index namespace ;;
    ix <~ attr_index oi ;;
    if bool_decide (0 < IndexFlatIP.ntotal ix) then
      match vector with
      | Some vector =>
          let vector_to_search := normalize_L2 (Vector.embeddings vector) in
          let '(D, I_) := IndexFlatIP.search vector_to_search top_k ix in
          __return_vectors I_ D namespace
      | None =>
          if bool_decide (id ≠ None ∧ id ≠ Some ""%string) then
            (* self.__return_embeddings(ids=[id], namespace=namespace) *)
            _ <~ lift (call_keywords ["id"; "namespace"]%string ["ids"; "namespace"]%string) ;;
            id_to_search <~ __return_embeddings (default ""%string id) namespace ;;
            let '(D, I_) := IndexFlatIP.search id_to_search top_k ix in
            __return_vectors I_ D namespace
          else raise (ValueError NeedVectorOrId)
      end
    else ret [].

End Store.

Arguments FAISSVectorStore F : clear implicits.
Arguments PyObj F : clear implicits.

(** ** Persistence to a directory *)

(** The two serialisers the store calls: faiss' [write_index] and
    [read_index], and [pickle] on a record list.  [Blob] is the content
    of a file; [no_bytes] is the content of a file just opened for
    writing.  A reader returns [None] where the library raises. *)
Class Codec (F Blob : Type) := {
  write_index : IndexFlatIP.t F → Blob;
  read_index : Blob → option (IndexFlatIP.t F);
  pickle_dump : list (Vector.t F) → Blob;
  pickle_load : Blob → option (list (Vector.t F));
  no_bytes : Blob
}.

(** What the two libraries promise: reading back what was written. *)
Class CodecLaws (F Blob : Type) `{!Codec F Blob} := {
  read_write_index : ∀ ix : IndexFlatIP.t F, read_index (write_index ix) = Some ix;
  pickle_load_dump : ∀ l : list (Vector.t F), pickle_load (pickle_dump l) = Some l
}.

Record FileSystem (Blob : Type) := {
  dirs : gset string;
  files : gmap string Blob
}.
Arguments dirs {Blob} f.
Arguments files {Blob} f.

Section Persistence.
Context {F Blob : Type} `{!FloatOps F} `{!Codec F Blob}.

Abbreviation IO := (Py (FileSystem Blob)).

(** [path.mkdir(exist_ok=True, parents=True)] *)
Definition mkdir (path : string) : IO unit :=
  λ fs, (Return tt, {| dirs := {[path]} ∪ dirs fs; files := files fs |}).

Definition write_file (path : string) (b : Blob) : IO unit :=
  λ fs, (Return tt, {| dirs := dirs fs; files := <[path := b]> (files fs) |}).

(** [os.path.join(path, name)] *)
Definition join (path name : string) : string := path +:+ "/" +:+ name.

(** ['index' if namespace is None else namespace + '_index'] *)
Definition stem (namespace : option string) : string :=
  match namespace with
  | None => "index"
  | Some n => n +:+ "_index"
  end.

(** ['index' if namespace is None else namespace_ + '_index'], where the
    local variable [namespace_] may be unbound ([None]). *)
Definition stem_of_local (namespace : option string)
    (namespace_ : option (option string)) : outcome string :=
  match namespace with
  | None => Return "index"%string
  | Some _ =>
      match namespace_ with
      | None => Raise UnboundLocalError
      | Some None => Raise TypeError
      | Some (Some n) => Return (n +:+ "_index")
      end
  end.

Definition item (m : gmap (option string) (PyObj F)) (k : option string)
    : outcome (PyObj F) :=
  match m !! k with
  | Some o => Return o
  | None => Raise KeyError
  end.

(** [write_index(o, path)]: faiss refuses an object that is not an index. *)
Definition faiss_write (o : PyObj F) (path : string) : IO unit :=
  match o with
  | PyIndex ix => write_file path (write_index ix)
  | PyList _ => raise TypeError
  end.

(** [with open(path, "wb") as f: pickle.dump(m[k], f)]: the file is opened,
    and so emptied, before [m[k]] is evaluated; an index object cannot be
    pickled. *)
Definition pickle_to (m : gmap (option string) (PyObj F)) (k : option string)
    (path : string) : IO unit :=
  _ <~ write_file path no_bytes ;;
  o <~ lift (item m k) ;;
  match o with
  | PyList l => write_file path (pickle_dump l)
  | PyIndex _ => raise TypeError
  end.

(** The body of the loop of the [save_all] branch, and the loop over the
    keys of [self.__index]. *)
Definition save_namespace (self : FAISSVectorStore F) (path : string)
    (namespace_ : option string) : IO unit :=
  oi <~ lift (item (index self) namespace_) ;;
  _ <~ faiss_write oi (join path (stem namespace_ +:+ ".faiss")) ;;
  pickle_to (local_id self) namespace_ (join path (stem namespace_ +:+ ".pkl")).

Fixpoint save_each (self : FAISSVectorStore F) (path : string)
    (keys : list (option string)) : IO unit :=
  match keys with
  | [] => ret tt
  | namespace_ :: rest =>
      _ <~ save_namespace self path namespace_ ;;
      save_each self path rest
  end.

Definition save_local (self : FAISSVectorStore F) (dir_path : string)
    (namespace : option string) (save_all : bool) : IO unit :=
  _ <~ mkdir dir_path ;;
  if save_all then
    save_each self dir_path (elements (dom (index self)))
  else if bool_decide (namespace ∉ dom (local_id self)) then
    raise (ValueError (NoNamespace namespace))
  else
    oi <~ lift (item (index self) namespace) ;;
    (* [namespace_] is bound by the loop of the other branch only *)
    name <~ lift (stem_of_local namespace None) ;;
    _ <~ faiss_write oi (join dir_path (name +:+ ".faiss")) ;;
    pickle_to (local_id self) namespace (join dir_path (stem namespace +:+ ".pkl")).

(** The loop of [load_local]: any exception while reading the two files
    of a namespace is turned into a [RuntimeError]. *)
Fixpoint load_each (fs : FileSystem Blob) (path : string)
    (namespaces : list (option string))
    (local_id_ index_ : gmap (option string) (PyObj F))
    : outcome (gmap (option string) (PyObj F) * gmap (option string) (PyObj F)) :=
  match namespaces with
  | [] => Return (local_id_, index_)
  | namespace :: rest =>
      match files fs !! join path (stem namespace +:+ ".faiss") ≫= read_index,
            files fs !! join path (stem namespace +:+ ".pkl") ≫= pickle_load with
      | Some index, Some ids =>
          load_each fs path rest (<[namespace := PyList ids]> local_id_)
            (<[namespace := PyIndex index]> index_)
      | _, _ => Raise (RuntimeError (BadFiles namespace))
      end
  end.

(** The class method [load_local(cls, namespaces, dir_path=".", d=1536)];
    [cls(local_id_, index_)] leaves the third parameter of [__init__] at
    its default. *)
Definition load_local (namespaces : list (option string)) (dir_path : string)
    (d : nat) (fs : FileSystem Blob) : outcome (FAISSVectorStore F) :=
  if bool_decide (dir_path ∉ dirs fs) then Raise (ValueError (NoDirectory dir_path))
  else
    obind (load_each fs dir_path namespaces ∅ ∅) (λ loaded,
      let local_id_ := loaded.1 in
      let index_ := loaded.2 in
      if bool_decide (None ∉ dom index_) then
        (* index_[None] = [] ; local_id_[None] = IndexFlatIP(d) *)
        __init__ (Some (<[None := PyIndex (IndexFlatIP.new d)]> local_id_))
                 (Some (<[None := PyList []]> index_)) 1536
      else __init__ (Some local_id_) (Some index_) 1536).

End Persistence.

(** ** An instance of the interfaces, for the examples

    Binary64 arithmetic for the numeric kernel (faiss computes in binary32;
    the examples use vectors on which the two agree), and a codec that
    stores the value itself. *)

Definition f64_norm (v : list float) : float :=
  PrimFloat.sqrt (foldr (λ x acc, x * x + acc)%float 0%float v).

Definition f64_normalize (v : list float) : list float :=
  let n := f64_norm v in
  if PrimFloat.eqb n 0%float then v else (λ x, x / n)%float <$> v.

Fixpoint f64_dot (q r : list float) : float :=
  match q, r with
  | x :: q', y :: r' => (x * y + f64_dot q' r')%float
  | _, _ => 0%float
  end.

#[global] Instance f64_ops : FloatOps float := {|
  normalize_L2 := f64_normalize;
  inner_product := f64_dot;
  score_lt := PrimFloat.ltb;
  no_score := neg_infinity
|}.

Inductive file_content :=
| IndexFile (ix : IndexFlatIP.t float)
| PickleFile (l : list (Vector.t float))
| EmptyFile.

#[global] Instance value_codec : Codec float file_content := {|
  write_index := IndexFile;
  read_index := λ b, match b with IndexFile ix => Some ix | _ => None end;
  pickle_dump := PickleFile;
  pickle_load := λ b, match b with PickleFile l => Some l | _ => None end;
  no_bytes := EmptyFile
|}.

#[global] Instance value_codec_laws : CodecLaws float file_content.
Proof. split; reflexivity. Qed.

(** The records of scenario A of the specification, and a third one. *)
Definition rec_a : Vector.t float := Vector.mk "a" [1; 0]%float ∅.
Definition rec_b : Vector.t float := Vector.mk "b" [0; 1]%float ∅.
Definition rec_c : Vector.t float := Vector.mk "c" [3; 4]%float ∅.

(** A store built directly, with dimension 2. *)
Definition store0 : FAISSVectorStore float :=
  {| local_id := {[ None := PyList [] ]};
     index := {[ None := PyIndex (IndexFlatIP.new 2) ]} |}.

Definition store_ab : FAISSVectorStore float := (add [rec_a; rec_b] None store0).2.
Definition store_abc : FAISSVectorStore float := (add [rec_a; rec_b; rec_c] None store0).2.

(** The same store with a second namespace, "docs", holding one record. *)
Definition store_docs : FAISSVectorStore float := (add [rec_a] (Some "docs"%string) store0).2.

(** A record of another dimension, a record without id, and a query that
    carries metadata. *)
Definition rec_wide : Vector.t float := Vector.mk "x" [1; 0; 2]%float ∅.
Definition rec_unnamed : Vector.t float := Vector.mk "" [1; 0]%float ∅.
Definition query_tagged : Vector.t float :=
  Vector.mk "q" [1; 0]%float {[ "tag"%string := MStr "x" ]}.

(** A file system with the directory "data" and no file. *)
Definition fs0 : FileSystem file_content := {| dirs := {["data"%string]}; files := ∅ |}.

(** ** What a caller can observe of a namespace *)

Section Observations.
Context {F : Type} `{!FloatOps F}.

(** The record list and the rows of a namespace; empty when the namespace
    is not there. *)
Definition records_of (s : FAISSVectorStore F) (namespace : option string)
    : list (Vector.t F) :=
  match local_id s !! namespace with
  | Some (PyList l) => l
  | _ => []
  end.

Definition rows_of (s : FAISSVectorStore F) (namespace : option string)
    : list (list F) :=
  match index s !! namespace with
  | Some (PyIndex ix) => IndexFlatIP.rows ix
  | _ => []
  end.

(** A namespace is a partition when it pairs a record list with a flat
    index. *)
Definition partition (s : FAISSVectorStore F) (namespace : option string)
    : option (list (Vector.t F) * IndexFlatIP.t F) :=
  match local_id s !! namespace, index s !! namespace with
  | Some (PyList l), Some (PyIndex ix) => Some (l, ix)
  | _, _ => None
  end.

(** The invariant of section 3: as many records as rows. *)
Definition rows_agree (s : FAISSVectorStore F) (namespace : option string) : Prop :=
  ∃ l ix, partition s namespace = Some (l, ix) ∧ length l = IndexFlatIP.ntotal ix.

(** The partition a call of [add] works on: the one of the namespace, or,
    for a namespace that is not there yet, an empty one whose dimension is
    the length of the first record of the call. *)
Definition target (s : FAISSVectorStore F) (namespace : option string)
    (vectors : list (Vector.t F)) : option (list (Vector.t F) * IndexFlatIP.t F) :=
  match local_id s !! namespace, index s !! namespace with
  | Some (PyList l), Some (PyIndex ix) => Some (l, ix)
  | None, None =>
      match vectors with
      | v0 :: _ => Some ([], IndexFlatIP.new (length (Vector.embeddings v0)))
      | [] => None
      end
  | _, _ => None
  end.

(** The store once [add] has made sure the namespace is there: a namespace
    that is not in [local_id] is registered with an empty record list and
    an empty index of dimension [dim]. *)
Definition with_namespace (s : FAISSVectorStore F) (namespace : option string)
    (dim : nat) : FAISSVectorStore F :=
  if bool_decide (namespace ∉ dom (local_id s)) then
    {| local_id := <[namespace := PyList []]> (local_id s);
       index := <[namespace := PyIndex (IndexFlatIP.new dim)]> (index s) |}
  else s.

(** The store once the rows [x] and the records [vectors] are appended to
    the partition [(l, ix)] of a namespace. *)
Definition extended (s : FAISSVectorStore F) (namespace : option string)
    (l : list (Vector.t F)) (ix : IndexFlatIP.t F) (vectors : list (Vector.t F))
    : FAISSVectorStore F :=
  {| local_id := <[namespace := PyList (l ++ vectors)]> (local_id s);
     index := <[namespace :=
                  PyIndex (IndexFlatIP.add
                             ((λ vector, normalize_L2 (Vector.embeddings vector)) <$> vectors)
                             ix)]> (index s) |}.

(** The store with the record list [lk] in a namespace. *)
Definition with_records (s : FAISSVectorStore F) (namespace : option string)
    (lk : list (Vector.t F)) : FAISSVectorStore F :=
  {| local_id := <[namespace := PyList lk]> (local_id s); index := index s |}.

(** A record with the score of a match written into its metadata. *)
Definition with_score (v : Vector.t F) (score : F) : Vector.t F :=
  Vector.mk (Vector.id v) (Vector.embeddings v)
    (<["score"%string := MNum score]> (Vector.metadata v)).

(** The record that answers one pair of a score and a position: none for
    the position -1 that pads a short result, else the record stored at
    the position, with the score. *)
Definition matched (l : list (Vector.t F)) (h : F * Z) : option (Vector.t F) :=
  if bool_decide (h.2 = (-1)%Z) then None
  else (λ v, with_score v h.1) <$> l !! Z.to_nat h.2.

(** [lk] is [l] after searches: the same records at the same positions,
    up to the score written into their metadata. *)
Definition rescored (l lk : list (Vector.t F)) : Prop :=
  length lk = length l
  ∧ ∀ i v, l !! i = Some v →
      ∃ v', lk !! i = Some v'
        ∧ Vector.id v' = Vector.id v
        ∧ Vector.embeddings v' = Vector.embeddings v
        ∧ ∀ score, with_score v' score = with_score v score.

(** An entry of [to_update]: a position of the list and a rescored copy
    of the record stored there. *)
Definition good_update (l : list (Vector.t F)) (u : nat * Vector.t F) : Prop :=
  ∃ v, l !! u.1 = Some v
    ∧ Vector.id u.2 = Vector.id v
    ∧ Vector.embeddings u.2 = Vector.embeddings v
    ∧ ∀ sc, with_score u.2 sc = with_score v sc.

(** A pair of a score and a position that [__return_vectors] can resolve
    in the list [l]: the position is -1 or the position of a record. *)
Definition in_range (l : list (Vector.t F)) (h : F * Z) : Prop :=
  h.2 = (-1)%Z ∨ (0 ≤ h.2 < Z.of_nat (length l))%Z.

(** The metadata the specification describes for a search result: the
    metadata of the query as a base, the metadata of the matched record
    laid over it, and the score. *)
Definition merged_metadata (query : option (Vector.t F)) (matched : Vector.t F)
    (score : F) : gmap string (MetaVal F) :=
  <["score"%string := MNum score]>
    (Vector.metadata matched ∪ from_option Vector.metadata ∅ query).

End Observations.

(** ** Persistence to firebase storage

    [save_firebase_storage] and [load_firebase_storage] keep the two
    objects of a namespace as two blobs of a bucket.  The index travels as
    [pickle.dumps(serialize_index(index))] and comes back through
    [deserialize_index(pickle.loads(...))]: that pair is what [write_index]
    and [read_index] of the class [Codec] stand for here. *)

Section Firebase.
Context {F Blob : Type} `{!Codec F Blob}.

Abbreviation Cloud := (Py (gmap string Blob)).

(** [f"files/{uid}/documents/{file_id}"], or with [file_path] before the
    file id when it is not the empty string. *)
Definition documents_path (uid file_id file_path : string) : string :=
  if bool_decide (file_path = ""%string)
  then "files/" +:+ uid +:+ "/documents/" +:+ file_id
  else "files/" +:+ uid +:+ "/documents/" +:+ file_path +:+ "/" +:+ file_id.

Definition index_blob (path : string) (namespace : option string) : string :=
  path +:+ "/" +:+
  match namespace with
  | None => "index.pkl"
  | Some n => "index_" +:+ n +:+ ".pkl"
  end.

Definition local_id_blob (path : string) (namespace : option string) : string :=
  path +:+ "/" +:+
  match namespace with
  | None => "local_id.pkl"
  | Some n => "local_id_" +:+ n +:+ ".pkl"
  end.

(** [bucket.blob(name).upload_from_string(b, ...)] *)
Definition upload_from_string (name : string) (b : Blob) : Cloud unit :=
  λ bucket, (Return tt, <[name := b]> bucket).

(** [pickle.dumps(serialize_index(o))]: faiss serialises indexes only. *)
Definition pickled_index (o : PyObj F) : outcome Blob :=
  match o with
  | PyIndex ix => Return (write_index ix)
  | PyList _ => Raise TypeError
  end.

(** [pickle.dumps(o)]: an index object cannot be pickled. *)
Definition pickled_local_id (o : PyObj F) : outcome Blob :=
  match o with
  | PyList l => Return (pickle_dump l)
  | PyIndex _ => Raise TypeError
  end.

(** The statements that upload the two blobs of one namespace; they are
    the body of the loop of the [save_all] branch and, with [namespace]
    for [namespace_], the other branch. *)
Definition upload_namespace (self : FAISSVectorStore F) (path : string)
    (namespace_ : option string) : Cloud unit :=
  oi <~ lift (item (index self) namespace_) ;;
  pickled <~ lift (pickled_index oi) ;;
  _ <~ upload_from_string (index_blob path namespace_) pickled ;;
  o <~ lift (item (local_id self) namespace_) ;;
  pickled' <~ lift (pickled_local_id o) ;;
  upload_from_string (local_id_blob path namespace_) pickled'.

Fixpoint upload_each (self : FAISSVectorStore F) (path : string)
    (keys : list (option string)) : Cloud unit :=
  match keys with
  | [] => ret tt
  | namespace_ :: rest =>
      _ <~ upload_namespace self path namespace_ ;;
      upload_each self path rest
  end.

Definition save_firebase_storage (self : FAISSVectorStore F)
    (uid file_id file_path : string) (namespace : option string)
    (save_all : bool) : Cloud unit :=
  let path := documents_path uid file_id file_path in
  if save_all then
    upload_each self path (elements (dom (index self)))
  else if bool_decide (namespace ∉ dom (local_id self)) then
    raise (ValueError (NoNamespace namespace))
  else upload_namespace self path namespace.

(** The loop of [load_firebase_storage]; a blob that is not there makes
    [download_as_bytes] raise, like a blob that cannot be read. *)
Fixpoint download_each (bucket : gmap string Blob) (path : string)
    (namespaces : list (option string))
    (local_id_ index_ : gmap (option string) (PyObj F))
    : outcome (gmap (option string) (PyObj F) * gmap (option string) (PyObj F)) :=
  match namespaces with
  | [] => Return (local_id_, index_)
  | namespace :: rest =>
      match bucket !! index_blob path namespace ≫= read_index,
            bucket !! local_id_blob path namespace ≫= pickle_load with
      | Some index, Some ids =>
          download_each bucket path rest (<[namespace := PyList ids]> local_id_)
            (<[namespace := PyIndex index]> index_)
      | _, _ => Raise (RuntimeError (BadFiles namespace))
      end
  end.

(** The class method
    [load_firebase_storage(cls, uid, file_id, namespaces=[None], file_path="", d=1536)]. *)
Definition load_firebase_storage (uid file_id : string)
    (namespaces : list (option string)) (file_path : string) (d : nat)
    (bucket : gmap string Blob) : outcome (FAISSVectorStore F) :=
  let path := documents_path uid file_id file_path in
  obind (download_each bucket path namespaces ∅ ∅) (λ loaded,
    let local_id_ := loaded.1 in
    let index_ := loaded.2 in
    if bool_decide (None ∉ dom index_) then
      (* index_[None] = [] ; local_id_[None] = IndexFlatIP(d) *)
      __init__ (Some (<[None := PyIndex (IndexFlatIP.new d)]> local_id_))
               (Some (<[None := PyList []]> index_)) 1536
    else __init__ (Some local_id_) (Some index_) 1536).

End Firebase.

(** ** The backends that forward to a service

    [PineconeVectorStore] and [SupabaseVectorStore] hand the records to a
    remote index.  What is embedded is what the methods compute themselves:
    the checks and the rows they build before a request, the requests they
    send, in order, and the records they build from an answer. *)

Section Remote.
Context {F : Type}.

(** The two [ValueError]s of [PineconeVectorStore.add]. *)
Inductive upsert_error :=
| EmptyId                  (* "Vector ID cannot be empty when adding to Pinecone." *)
| NotUnique (id : string). (* "Vector ID {vector.id} is not unique to this batch. ..." *)

(** A call of [upsert] on the remote index. *)
Record upsert_request := {
  upsert_data : list (string * list F * gmap string (MetaVal F));
  upsert_namespace : option string;
  upsert_batch_size : option nat;
  upsert_show_progress : bool
}.

(** The loop of [PineconeVectorStore.add]; [ids] holds the ids seen so
    far, and [{**metadata, **vector.metadata}] lets the entries of the
    record win. *)
Fixpoint pinecone_rows (metadata : gmap string (MetaVal F)) (ids : gset string)
    (vectors : list (Vector.t F))
    : upsert_error + list (string * list F * gmap string (MetaVal F)) :=
  match vectors with
  | [] => inr []
  | vector :: rest =>
      if bool_decide (Vector.id vector = ""%string) then inl EmptyId
      else if bool_decide (Vector.id vector ∈ ids) then inl (NotUnique (Vector.id vector))
      else
        match pinecone_rows metadata ({[Vector.id vector]} ∪ ids) rest with
        | inl e => inl e
        | inr data_to_add =>
            inr ((Vector.id vector, Vector.embeddings vector,
                  Vector.metadata vector ∪ metadata) :: data_to_add)
        end
  end.

(** The row that [add] builds for a record that passes the checks. *)
Definition pinecone_row (metadata : gmap string (MetaVal F)) (vector : Vector.t F)
    : string * list F * gmap string (MetaVal F) :=
  (Vector.id vector, Vector.embeddings vector, Vector.metadata vector ∪ metadata).

(** [PineconeVectorStore.add]: [kwargs_metadata] is the entry "metadata"
    of [kwargs] when there is one; [sent] are the calls of [upsert] made so
    far. *)
Definition pinecone_add (vectors : list (Vector.t F)) (namespace : option string)
    (batch_size : option nat) (show_progress : bool)
    (kwargs_metadata : option (gmap string (MetaVal F)))
    (sent : list upsert_request) : (upsert_error + unit) * list upsert_request :=
  match pinecone_rows (default ∅ kwargs_metadata) ∅ vectors with
  | inl e => (inl e, sent)
  | inr data_to_add =>
      (inr tt,
       sent ++ [{| upsert_data := data_to_add; upsert_namespace := namespace;
                   upsert_batch_size := batch_size;
                   upsert_show_progress := show_progress |}])
  end.

(** One entry of [query_response.matches]. *)
Record Match := {
  match_id : string;
  match_values : list F;
  match_metadata : option (gmap string (MetaVal F));
  match_score : F
}.

(** The metadata after one turn of the loop of [PineconeVectorStore.search]:
    the metadata of the match, when it is there and not empty, laid over
    the dictionary [metadata], and then the score. *)
Definition after_match (metadata : gmap string (MetaVal F)) (m : Match)
    : gmap string (MetaVal F) :=
  <["score"%string := MNum (match_score m)]>
    (match match_metadata m with
     | Some mm => if bool_decide (mm ≠ ∅) then mm ∪ metadata else metadata
     | None => metadata
     end).

(** The loop of [PineconeVectorStore.search] over the matches.  With a
    query vector, [metadata] is the dictionary of the query itself, which
    the loop updates in place from one match to the next; without one it
    is a fresh [{}] at each turn.  Returns the records and the query as the
    loop leaves it. *)
Fixpoint pinecone_results (vector : option (Vector.t F)) (matches : list Match)
    : list (Vector.t F) * option (Vector.t F) :=
  match matches with
  | [] => ([], vector)
  | m :: rest =>
      let metadata := after_match (from_option Vector.metadata ∅ vector) m in
      let vector' :=
        (λ q, Vector.mk (Vector.id q) (Vector.embeddings q) metadata) <$> vector in
      let r := pinecone_results vector' rest in
      (Vector.mk (match_id m) (match_values m) metadata :: r.1, r.2)
  end.

(** The [ValueError] of [SupabaseVectorStore.add]. *)
Inductive insert_error :=
| EmptyEmbeddings.  (* "Vector embeddings cannot be empty when adding to Supabase." *)

(** A row handed to [insert]: the key "id" is there when the id of the
    record is not empty. *)
Record insert_row := {
  row_id : option string;
  row_vector : list F;
  row_metadata : gmap string (MetaVal F)
}.

Definition supabase_row (vector : Vector.t F) : insert_row :=
  {| row_id := if bool_decide (Vector.id vector ≠ ""%string)
               then Some (Vector.id vector) else None;
     row_vector := Vector.embeddings vector;
     row_metadata := Vector.metadata vector |}.

(** [SupabaseVectorStore.add]: one [insert(...).execute()] for each record,
    in turn; [sent] are the rows inserted so far. *)
Fixpoint supabase_add (vectors : list (Vector.t F)) (sent : list insert_row)
    : (insert_error + unit) * list insert_row :=
  match vectors with
  | [] => (inr tt, sent)
  | vector :: rest =>
      if bool_decide (Vector.embeddings vector = []) then (inl EmptyEmbeddings, sent)
      else supabase_add rest (sent ++ [supabase_row vector])
  end.

End Remote.

(** ** Sound partitions, and sequences of calls *)

Section Soundness.
Context {F : Type} `{!FloatOps F}.

(** What [add] establishes of a record list and its index: the ids are
    distinct, every embedding has the dimension of the index, and row [i]
    is the normalized embedding of record [i]. *)
Definition sound (l : list (Vector.t F)) (ix : IndexFlatIP.t F) : Prop :=
  NoDup (Vector.id <$> l)
  ∧ Forall (λ v, length (Vector.embeddings v) = IndexFlatIP.d ix) l
  ∧ IndexFlatIP.rows ix = (λ v, normalize_L2 (Vector.embeddings v)) <$> l.

Definition sound_partition (s : FAISSVectorStore F) (namespace : option string) : Prop :=
  ∃ l ix, partition s namespace = Some (l, ix) ∧ sound l ix.

(** Every namespace that one of the two dictionaries knows is a sound
    partition. *)
Definition sound_store (s : FAISSVectorStore F) : Prop :=
  ∀ namespace,
    is_Some (local_id s !! namespace) ∨ is_Some (index s !! namespace) →
    sound_partition s namespace.

(** A method touches one namespace only. *)
Definition only_touches {A} (namespace : option string)
    (m : Py (FAISSVectorStore F) A) : Prop :=
  ∀ s other, other ≠ namespace →
    local_id (m s).2 !! other = local_id s !! other
    ∧ index (m s).2 !! other = index s !! other.

(** The calls of the public methods that keep a store sound. *)
Inductive call :=
| CallAdd (vectors : list (Vector.t F)) (namespace : option string)
| CallSearch (vector : option (Vector.t F)) (id : option string) (top_k : nat)
    (namespace : option string)
| CallDeleteAll (namespace : option string).

Definition run (c : call) (s : FAISSVectorStore F) : FAISSVectorStore F :=
  match c with
  | CallAdd vectors namespace => (add vectors namespace s).2
  | CallSearch vector id top_k namespace => (search vector id top_k namespace s).2
  | CallDeleteAll namespace => (delete None true namespace s).2
  end.

Definition nonempty_add (c : call) : Prop :=
  match c with
  | CallAdd [] _ => False
  | _ => True
  end.

End Soundness.

(** ** What the files of a namespace hold *)

Section FileObservations.
Context {F Blob : Type} `{!Codec F Blob}.

(** The index and the record list read from the two files of a
    namespace, when both are there and readable. *)
Definition read_namespace (fs : FileSystem Blob) (path : string)
    (namespace : option string) : option (IndexFlatIP.t F * list (Vector.t F)) :=
  match files fs !! join path (stem namespace +:+ ".faiss") ≫= read_index,
        files fs !! join path (stem namespace +:+ ".pkl") ≫= pickle_load with
  | Some ix, Some l => Some (ix, l)
  | _, _ => None
  end.

End FileObservations.

(** ** Example data for the remote backends *)

(** Two matches of a remote query, the first with metadata. *)
Definition match_a : Match (F:=float) :=
  {| match_id := "a"; match_values := [1; 0]%float;
     match_metadata := Some {[ "lang"%string := MStr "en" ]};
     match_score := 1%float |}.
Definition match_b : Match (F:=float) :=
  {| match_id := "b"; match_values := [0; 1]%float;
     match_metadata := None; match_score := 0%float |}.

(** The characters of a file name. *)
Abbreviation chars_of := Stdlib.Strings.String.list_ascii_of_string.

(** * Properties *)

Section Properties.
Context {F : Type} `{!FloatOps F}.

Implicit Types (s : FAISSVectorStore F) (namespace : option string).
Implicit Types (l : list (Vector.t F)) (ix : IndexFlatIP.t F) (ids : list string).

Ltac py_unfold :=
  repeat progress
    (unfold bind, ret, raise, get_state, lift, get_local_id, get_index,
       set_local_id, set_index, iter_list, attr_index;
     cbv beta iota).

(** ** Membership of a namespace *)

Lemma namespace_absent s namespace :
  local_id s !! namespace = None →
  bool_decide (namespace ∉ dom (local_id s)) = true.
Proof. intros H. apply bool_decide_eq_true. by apply not_elem_of_dom. Qed.

Lemma namespace_present s namespace :
  is_Some (local_id s !! namespace) →
  bool_decide (namespace ∉ dom (local_id s)) = false.
Proof.
  intros H. apply bool_decide_eq_false. intros Hd. apply Hd.
  by apply elem_of_dom.
Qed.

Lemma partition_lookups s namespace l ix :
  partition s namespace = Some (l, ix) →
  local_id s !! namespace = Some (PyList l) ∧ index s !! namespace = Some (PyIndex ix).
Proof.
  unfold partition. intros H.
  destruct (local_id s !! namespace) as [[l'|?]|]; try discriminate.
  destruct (index s !! namespace) as [[?|ix']|]; try discriminate.
  by inversion H.
Qed.

(** ** search *)

Lemma search_unknown_namespace s (vector : option (Vector.t F)) (id : option string)
    (top_k : nat) namespace :
  local_id s !! namespace = None →
  search vector id top_k namespace s = (Return [], s).
Proof.
  intros Hno. unfold search, bind, get_state. by rewrite namespace_absent.
Qed.

Lemma search_empty_partition s (vector : option (Vector.t F)) (id : option string)
    (top_k : nat) namespace ix :
  is_Some (local_id s !! namespace) →
  index s !! namespace = Some (PyIndex ix) →
  IndexFlatIP.ntotal ix = 0 →
  search vector id top_k namespace s = (Return [], s).
Proof.
  intros Hsome Hix Hn. unfold search, bind, get_state.
  rewrite namespace_present by done.
  py_unfold. rewrite Hix. cbv beta iota. rewrite Hn. reflexivity.
Qed.

(** C10: a search in a namespace that is not in the registry, or in one
    whose flat index holds no row, returns the empty list, raises nothing
    and leaves the store as it was, whatever query was given. *)
Theorem search_nothing_indexed s (vector : option (Vector.t F)) (id : option string)
    (top_k : nat) namespace :
  local_id s !! namespace = None
  ∨ (is_Some (local_id s !! namespace)
     ∧ ∃ ix, index s !! namespace = Some (PyIndex ix) ∧ IndexFlatIP.ntotal ix = 0) →
  search vector id top_k namespace s = (Return [], s).
Proof.
  intros [Hno | [Hsome (ix & Hix & Hn)]].
  - by apply search_unknown_namespace.
  - by eapply search_empty_partition.
Qed.

(** The query forms that do work as the specification says: an explicit
    vector wins over an id, and a call with neither is refused. *)
Lemma search_vector_precedence s (v : Vector.t F) (id : option string) top_k namespace :
  search (Some v) id top_k namespace s = search (Some v) None top_k namespace s.
Proof. reflexivity. Qed.

Lemma search_without_query s top_k namespace ix :
  is_Some (local_id s !! namespace) →
  index s !! namespace = Some (PyIndex ix) →
  0 < IndexFlatIP.ntotal ix →
  search None None top_k namespace s = (Raise (ValueError NeedVectorOrId), s).
Proof.
  intros Hsome Hix Hn. unfold search, bind, get_state.
  rewrite namespace_present by done.
  py_unfold. rewrite Hix. cbv beta iota. rewrite bool_decide_true by done.
  rewrite bool_decide_false; [done | by intros [? _]].
Qed.

(** C4: on a partition that holds rows, a search by id alone never reaches
    the lookup of the stored embedding: the call of [__return_embeddings]
    passes the keyword [ids], which is not a parameter of that method, and
    the search ends in a [TypeError], also for an id that is stored. *)
Theorem search_by_id_type_error s (id : string) top_k namespace ix :
  is_Some (local_id s !! namespace) →
  index s !! namespace = Some (PyIndex ix) →
  0 < IndexFlatIP.ntotal ix →
  id ≠ ""%string →
  search None (Some id) top_k namespace s = (Raise TypeError, s).
Proof.
  intros Hsome Hix Hn Hid. unfold search, bind, get_state.
  rewrite namespace_present by done.
  py_unfold. rewrite Hix. cbv beta iota. rewrite bool_decide_true by done.
  rewrite bool_decide_true; [done | naive_solver].
Qed.

(** Nothing of the query but its embedding reaches the result: the
    metadata of the query is never read. *)
Lemma search_ignores_query_metadata s (v : Vector.t F) md (id : option string)
    top_k namespace :
  search (Some (Vector.mk (Vector.id v) (Vector.embeddings v) md)) id top_k namespace s
  = search (Some v) id top_k namespace s.
Proof. reflexivity. Qed.

(** ** add *)

Lemma add_check_state namespace ids ids_vector (vectors : list (Vector.t F)) s :
  (add_check namespace ids ids_vector vectors s).2 = s.
Proof.
  revert ids_vector. induction vectors as [|v rest IH]; intros ids_vector; [done|].
  cbn [add_check]. destruct (_ || _); [done|].
  py_unfold. destruct (index s !! namespace) as [[?|ix]|]; try done.
  destruct (bool_decide _); [done|]. apply IH.
Qed.

(** A prefix of the call that passes both checks is walked through. *)
Lemma add_check_prefix namespace ids ids_vector (pre rest : list (Vector.t F)) s ix :
  index s !! namespace = Some (PyIndex ix) →
  Forall (λ u, length (Vector.embeddings u) = IndexFlatIP.d ix) pre →
  (∀ u, u ∈ pre → Vector.id u ∉ ids) →
  NoDup (ids_vector ++ (Vector.id <$> pre)) →
  add_check namespace ids ids_vector (pre ++ rest) s
  = add_check namespace ids (ids_vector ++ (Vector.id <$> pre)) rest s.
Proof.
  intros Hix. revert ids_vector.
  induction pre as [|v pre IH]; intros ids_vector Hdim Hids Hnd.
  - by rewrite app_nil_r.
  - cbn [app add_check fmap list_fmap].
    apply Forall_cons in Hdim as [Hv Hdim].
    assert (Vector.id v ∉ ids) by (apply Hids; left).
    assert (Vector.id v ∉ ids_vector).
    { apply NoDup_app in Hnd as (_ & Hdisj & _). intros Hin.
      apply (Hdisj _ Hin). left. }
    rewrite !bool_decide_false by done. cbn [orb].
    py_unfold. rewrite Hix. cbv beta iota.
    rewrite bool_decide_false by (by intros Hne; apply Hne).
    rewrite IH; [| done | by intros u Hu; apply Hids; right |].
    + by rewrite <- app_assoc.
    + by rewrite <- app_assoc.
Qed.

Lemma add_check_passes namespace ids (vectors : list (Vector.t F)) s ix :
  index s !! namespace = Some (PyIndex ix) →
  Forall (λ u, length (Vector.embeddings u) = IndexFlatIP.d ix) vectors →
  (∀ u, u ∈ vectors → Vector.id u ∉ ids) →
  NoDup (Vector.id <$> vectors) →
  add_check namespace ids [] vectors s = (Return tt, s).
Proof.
  intros Hix Hdim Hids Hnd.
  rewrite <- (app_nil_r vectors).
  by erewrite add_check_prefix.
Qed.

Lemma with_namespace_partition s namespace (vectors : list (Vector.t F)) l ix :
  target s namespace vectors = Some (l, ix) →
  partition (with_namespace s namespace (IndexFlatIP.d ix)) namespace = Some (l, ix).
Proof.
  unfold target, partition, with_namespace. intros H.
  destruct (local_id s !! namespace) as [[l'|?]|] eqn:Hl; try discriminate.
  - destruct (index s !! namespace) as [[?|ix']|] eqn:Hi; try discriminate.
    rewrite namespace_present by (by rewrite Hl). by rewrite Hl, Hi.
  - destruct (index s !! namespace) eqn:Hi; try discriminate.
    destruct vectors as [|v0 ?]; try discriminate. inversion H; subst.
    rewrite namespace_absent by done. cbn.
    by rewrite !lookup_insert_eq.
Qed.

(** What [add] does on a call that has a target partition: either the
    validation loop raises, and the store is the one with the namespace
    made sure of, or the rows and the records are appended. *)
Lemma add_unfold s namespace (vectors : list (Vector.t F)) l ix :
  target s namespace vectors = Some (l, ix) →
  let s1 := with_namespace s namespace (IndexFlatIP.d ix) in
  add vectors namespace s =
    match (add_check namespace (Vector.id <$> l) [] vectors s1).1 with
    | Raise e => (Raise e, s1)
    | Return _ => (Return tt, extended s1 namespace l ix vectors)
    end.
Proof.
  intros Ht s1.
  pose proof (with_namespace_partition _ _ _ _ _ Ht) as Hp.
  apply partition_lookups in Hp as [Hl1 Hi1]. fold s1 in Hl1, Hi1.
  assert (Hprep :
    (if bool_decide (namespace ∉ dom (local_id s)) then
       _ <~ set_local_id namespace (PyList []) ;;
       match vectors with
       | [] => raise IndexError
       | v0 :: _ =>
           set_index namespace
             (PyIndex (IndexFlatIP.new (length (Vector.embeddings v0))))
       end
     else ret tt) s = (Return tt, s1)).
  { subst s1. unfold with_namespace, target in *.
    destruct (local_id s !! namespace) as [[l'|?]|] eqn:Hl; try discriminate.
    - rewrite namespace_present by (by rewrite Hl). done.
    - destruct (index s !! namespace) eqn:Hi; try discriminate.
      destruct vectors as [|v0 ?]; try discriminate. inversion Ht; subst.
      rewrite namespace_absent by done. done. }
  unfold add. unfold bind at 1. unfold get_state. cbv beta iota.
  unfold bind at 1. rewrite Hprep. cbv beta iota.
  py_unfold. rewrite Hl1. cbv beta iota.
  pose proof (add_check_state namespace (Vector.id <$> l) [] vectors s1) as Hst.
  destruct (add_check namespace (Vector.id <$> l) [] vectors s1) as [[[]|e] s2];
    cbn [fst snd] in *; subst s2; [|done].
  rewrite Hi1. cbv beta iota. cbn [local_id index].
  rewrite Hl1. reflexivity.
Qed.

Lemma with_namespace_observed s namespace (vectors : list (Vector.t F)) l ix :
  target s namespace vectors = Some (l, ix) →
  records_of (with_namespace s namespace (IndexFlatIP.d ix)) namespace
    = records_of s namespace
  ∧ rows_of (with_namespace s namespace (IndexFlatIP.d ix)) namespace
    = rows_of s namespace.
Proof.
  unfold target, with_namespace, records_of, rows_of. intros H.
  destruct (local_id s !! namespace) as [[l'|?]|] eqn:Hl; try discriminate.
  - rewrite namespace_present by (by rewrite Hl). by rewrite Hl.
  - destruct (index s !! namespace) eqn:Hi; try discriminate.
    rewrite namespace_absent by done. cbn.
    by rewrite !lookup_insert_eq.
Qed.

Lemma with_namespace_existing s namespace dim :
  is_Some (local_id s !! namespace) → with_namespace s namespace dim = s.
Proof. intros H. unfold with_namespace. by rewrite namespace_present. Qed.

Lemma with_namespace_fresh s namespace dim :
  local_id s !! namespace = None →
  with_namespace s namespace dim
  = {| local_id := <[namespace := PyList []]> (local_id s);
       index := <[namespace := PyIndex (IndexFlatIP.new dim)]> (index s) |}.
Proof. intros H. unfold with_namespace. by rewrite namespace_absent. Qed.

(** For a partition that is being created, the dimension is the length of
    the first record of the call. *)
Lemma target_dimension_inferred s namespace (v0 : Vector.t F) rest l ix :
  local_id s !! namespace = None →
  target s namespace (v0 :: rest) = Some (l, ix) →
  l = [] ∧ ix = IndexFlatIP.new (length (Vector.embeddings v0)).
Proof.
  unfold target. intros ->. destruct (index s !! namespace); [done|].
  by inversion 1.
Qed.

(** A call whose records all pass both checks appends them, in order, to
    the record list, and their normalized embeddings to the index. *)
Lemma add_succeeds s namespace (vectors : list (Vector.t F)) l ix :
  target s namespace vectors = Some (l, ix) →
  Forall (λ u, length (Vector.embeddings u) = IndexFlatIP.d ix) vectors →
  (∀ u, u ∈ vectors → Vector.id u ∉ Vector.id <$> l) →
  NoDup (Vector.id <$> vectors) →
  add vectors namespace s
  = (Return tt,
     extended (with_namespace s namespace (IndexFlatIP.d ix)) namespace l ix vectors).
Proof.
  intros Ht Hdim Hids Hnd. rewrite (add_unfold _ _ _ _ _ Ht).
  pose proof (with_namespace_partition _ _ _ _ _ Ht) as Hp.
  apply partition_lookups in Hp as [_ Hi1].
  by rewrite (add_check_passes _ _ _ _ _ Hi1).
Qed.

(** C8: every record must have the dimension of the partition, which for a
    partition that is being created is the length of the first record of the
    call.  The first record that has another length, when the records
    before it pass the checks and its own id is not taken, makes [add] raise
    the [ValueError] that reports the expected and the actual length, and
    neither the record list nor the index of the namespace gains a row. *)
Theorem add_wrong_dimension s namespace (pre : list (Vector.t F)) (v : Vector.t F)
    (post : list (Vector.t F)) l ix :
  target s namespace (pre ++ v :: post) = Some (l, ix) →
  Forall (λ u, length (Vector.embeddings u) = IndexFlatIP.d ix) pre →
  NoDup (Vector.id <$> pre ++ [v]) →
  (∀ u, u ∈ pre ++ [v] → Vector.id u ∉ Vector.id <$> l) →
  length (Vector.embeddings v) ≠ IndexFlatIP.d ix →
  ∃ s', add (pre ++ v :: post) namespace s
        = (Raise (ValueError (WrongSize (IndexFlatIP.d ix)
                                (length (Vector.embeddings v)))), s')
    ∧ kind_of (ValueError (WrongSize (IndexFlatIP.d ix)
                             (length (Vector.embeddings v))))
      = Some DimensionMismatch
    ∧ records_of s' namespace = records_of s namespace
    ∧ rows_of s' namespace = rows_of s namespace.
Proof.
  intros Ht Hdim Hnd Hids Hv.
  exists (with_namespace s namespace (IndexFlatIP.d ix)).
  split; [| split; [done | by eapply with_namespace_observed]].
  rewrite (add_unfold _ _ _ _ _ Ht).
  pose proof (with_namespace_partition _ _ _ _ _ Ht) as Hp.
  apply partition_lookups in Hp as [_ Hi1].
  rewrite fmap_app in Hnd.
  erewrite add_check_prefix; [| done | done | | ].
  - cbn [add_check app].
    assert (Vector.id v ∉ Vector.id <$> l) by (apply Hids; set_solver).
    assert (Vector.id v ∉ Vector.id <$> pre).
    { apply NoDup_app in Hnd as (_ & Hdisj & _). intros Hin.
      apply (Hdisj _ Hin). cbn. left. }
    rewrite !bool_decide_false by done. cbn [orb].
    py_unfold. rewrite Hi1. cbv beta iota.
    by rewrite bool_decide_true.
  - intros u Hu. apply Hids. set_solver.
  - cbn [app]. by apply NoDup_app in Hnd as (? & _ & _).
Qed.

(** C6, as the code has it: a record whose id is already in the namespace,
    or is the id of an earlier record of the call, makes [add] raise the
    [ValueError] of a duplicated id, when the records before it pass the
    checks.  No row is added.  A namespace that was there is left as it was;
    a namespace that was not there has been registered, with an empty record
    list and an empty index of the dimension of the first record. *)
Theorem add_duplicate_id s namespace (pre : list (Vector.t F)) (v : Vector.t F)
    (post : list (Vector.t F)) l ix :
  target s namespace (pre ++ v :: post) = Some (l, ix) →
  Forall (λ u, length (Vector.embeddings u) = IndexFlatIP.d ix) pre →
  NoDup (Vector.id <$> pre) →
  (∀ u, u ∈ pre → Vector.id u ∉ Vector.id <$> l) →
  Vector.id v ∈ (Vector.id <$> l) ++ (Vector.id <$> pre) →
  ∃ s', add (pre ++ v :: post) namespace s
        = (Raise (ValueError (Duplicated (Vector.id v))), s')
    ∧ kind_of (ValueError (Duplicated (Vector.id v))) = Some DuplicateId
    ∧ records_of s' namespace = records_of s namespace
    ∧ rows_of s' namespace = rows_of s namespace
    ∧ (is_Some (local_id s !! namespace) → s' = s)
    ∧ (local_id s !! namespace = None →
       s' = {| local_id := <[namespace := PyList []]> (local_id s);
               index := <[namespace := PyIndex (IndexFlatIP.new (IndexFlatIP.d ix))]>
                          (index s) |}).
Proof.
  intros Ht Hdim Hnd Hids Hv.
  exists (with_namespace s namespace (IndexFlatIP.d ix)).
  destruct (with_namespace_observed _ _ _ _ _ Ht) as [Hrec Hrows].
  split; [| split; [done | split; [done | split; [done | split]]]].
  - rewrite (add_unfold _ _ _ _ _ Ht).
    pose proof (with_namespace_partition _ _ _ _ _ Ht) as Hp.
    apply partition_lookups in Hp as [_ Hi1].
    erewrite add_check_prefix; [| done | done | done | done].
    cbn [add_check app].
    apply elem_of_app in Hv as [Hv | Hv].
    + by rewrite (bool_decide_true _ Hv).
    + rewrite (bool_decide_true (_ ∈ Vector.id <$> pre)) by done.
      by rewrite orb_true_r.
  - apply with_namespace_existing.
  - apply with_namespace_fresh.
Qed.

(** ** delete *)

Lemma positions_in_length ids i l :
  length (positions_in ids i l) = length (filter (λ v, Vector.id v ∈ ids) l).
Proof.
  revert i. induction l as [|v l IH]; intros i; [done|].
  cbn [positions_in]. rewrite filter_cons.
  case_bool_decide; destruct (decide _); try done; cbn; by rewrite IH.
Qed.

Lemma elem_of_positions_in ids i l j :
  j ∈ positions_in ids i l ↔
  i ≤ j ∧ ∃ v, l !! (j - i) = Some v ∧ Vector.id v ∈ ids.
Proof.
  revert i. induction l as [|v l IH]; intros i; cbn [positions_in].
  - split; [by intros ?%elem_of_nil | by intros (_ & ? & ? & _)].
  - assert (Htail : j ∈ positions_in ids (S i) l ↔
                    i < j ∧ ∃ v', (v :: l) !! (j - i) = Some v' ∧ Vector.id v' ∈ ids).
    { rewrite IH. split.
      - intros (Hle & v' & Hv' & Hin). split; [lia|]. exists v'. split; [|done].
        replace (j - i) with (S (j - S i)) by lia. done.
      - intros (Hlt & v' & Hv' & Hin). split; [lia|]. exists v'. split; [|done].
        replace (j - i) with (S (j - S i)) in Hv' by lia. done. }
    case_bool_decide as Hv.
    + rewrite elem_of_cons, Htail. split.
      * intros [-> | (Hlt & Hex)]; [| split; [lia | done]].
        split; [lia|]. exists v. by rewrite Nat.sub_diag.
      * intros (Hle & v' & Hv' & Hin).
        destruct (decide (j = i)) as [-> | Hne]; [by left | right].
        split; [lia | by exists v'].
    + rewrite Htail. split.
      * intros (Hlt & Hex). split; [lia | done].
      * intros (Hle & v' & Hv' & Hin).
        destruct (decide (j = i)) as [-> | Hne]; [| split; [lia | by exists v']].
        rewrite Nat.sub_diag in Hv'. cbn in Hv'. by simplify_eq.
Qed.

Lemma positions_in_range ids l :
  forallb (λ p, p <? length l) (positions_in ids 0 l) = true.
Proof.
  apply forallb_forall. intros p Hp%list_elem_of_In.
  apply elem_of_positions_in in Hp as (_ & v & Hv & _).
  apply lookup_lt_Some in Hv. apply Nat.ltb_lt. lia.
Qed.

(** Dropping the rows at the positions of the requested ids keeps as many
    rows as there are records with another id. *)
Lemma drop_positions_length {A} ids (x : list nat) l (rows : list A) i :
  length l = length rows →
  (∀ j v, l !! j = Some v → (i + j ∈ x ↔ Vector.id v ∈ ids)) →
  length (drop_positions x i rows)
  = length (filter (λ v, Vector.id v ∉ ids) l).
Proof.
  revert rows i. induction l as [|v l IH]; intros [|r rows] i Hlen Hx;
    try discriminate; [done|].
  cbn [drop_positions]. rewrite filter_cons.
  assert (Hv : i ∈ x ↔ Vector.id v ∈ ids).
  { rewrite <- (Hx 0 v eq_refl). by rewrite Nat.add_0_r. }
  assert (Htl : length (drop_positions x (S i) rows)
                = length (filter (λ v, Vector.id v ∉ ids) l)).
  { apply IH; [by inversion Hlen|]. intros j v' Hj.
    rewrite <- (Hx (S j) v' Hj). by rewrite Nat.add_succ_r. }
  case_bool_decide; destruct (decide _); cbn; try tauto; by rewrite Htl.
Qed.

Lemma filter_complement_length ids l :
  length (filter (λ v, Vector.id v ∈ ids) l)
  + length (filter (λ v, Vector.id v ∉ ids) l) = length l.
Proof.
  induction l as [|v l IH]; [done|]. rewrite !filter_cons.
  destruct (decide (Vector.id v ∈ ids)); destruct (decide (Vector.id v ∉ ids));
    cbn; try tauto; lia.
Qed.

Lemma filter_requested_NoDup ids l :
  NoDup (Vector.id <$> l) →
  NoDup (Vector.id <$> filter (λ v, Vector.id v ∈ ids) l).
Proof.
  intros Hnd. eapply sublist_NoDup; [exact Hnd|].
  apply fmap_sublist, sublist_filter.
Qed.

(** When the stored ids are distinct and every requested id is stored,
    once, as many records match as ids were requested. *)
Lemma matching_all_present ids l :
  NoDup (Vector.id <$> l) → NoDup ids →
  (∀ x, x ∈ ids → x ∈ Vector.id <$> l) →
  length (filter (λ v, Vector.id v ∈ ids) l) = length ids.
Proof.
  intros Hl Hids Hsub.
  rewrite <- (length_fmap Vector.id).
  apply Permutation_length, NoDup_Permutation;
    [by apply filter_requested_NoDup | done |].
  intros x. rewrite list_elem_of_fmap. split.
  - intros (v & -> & Hv). by apply list_elem_of_filter in Hv as [? _].
  - intros Hx. pose proof (Hsub x Hx) as Hxl.
    apply list_elem_of_fmap in Hxl as (v & Heq & Hv).
    exists v. split; [done|]. apply list_elem_of_filter. by rewrite <- Heq.
Qed.

(** When the stored ids are distinct and some requested id is not stored,
    fewer records match than ids were requested. *)
Lemma matching_some_absent ids l z :
  NoDup (Vector.id <$> l) → z ∈ ids → z ∉ Vector.id <$> l →
  length (filter (λ v, Vector.id v ∈ ids) l) < length ids.
Proof.
  intros Hl Hz Hzl.
  rewrite <- (length_fmap Vector.id).
  assert (Hsub : Vector.id <$> filter (λ v, Vector.id v ∈ ids) l
                 ⊆+ filter (λ x, x ≠ z) ids).
  { apply NoDup_submseteq; [by apply filter_requested_NoDup|].
    intros x (v & -> & Hv)%list_elem_of_fmap.
    apply list_elem_of_filter in Hv as [Hin Hvl].
    apply list_elem_of_filter. split; [|done].
    intros Heq. apply Hzl. rewrite <- Heq. apply list_elem_of_fmap. eauto. }
  apply submseteq_length in Hsub.
  assert (length (filter (λ x, x ≠ z) ids) < length ids); [|lia].
  clear -Hz. induction ids as [|y ids IH]; [by apply elem_of_nil in Hz|].
  rewrite filter_cons. destruct (decide (y ≠ z)) as [Hne|Heq]; cbn.
  - apply elem_of_cons in Hz as [->|Hz]; [done|]. specialize (IH Hz). lia.
  - pose proof (length_filter (λ x, x ≠ z) ids). lia.
Qed.

Lemma delete_unknown_namespace s (ids : option (list string)) delete_all namespace :
  local_id s !! namespace = None →
  delete ids delete_all namespace s = (Raise (ValueError (NoNamespace namespace)), s).
Proof.
  intros H. unfold delete, bind, get_state. by rewrite namespace_absent.
Qed.

Lemma delete_without_selection s namespace :
  is_Some (local_id s !! namespace) →
  delete None false namespace s = (Raise (ValueError NeedIdsOrDeleteAll), s).
Proof.
  intros H. unfold delete, bind, get_state. by rewrite namespace_present.
Qed.

(** [delete_all] empties both halves of the partition, and may be
    repeated. *)
Lemma delete_all_empties s namespace l ix :
  partition s namespace = Some (l, ix) →
  delete None true namespace s
  = (Return tt,
     {| local_id := <[namespace := PyList []]> (local_id s);
        index := <[namespace := PyIndex (IndexFlatIP.reset ix)]> (index s) |}).
Proof.
  intros [Hl Hi]%partition_lookups. unfold delete, bind at 1, get_state.
  rewrite namespace_present by (by rewrite Hl).
  py_unfold. rewrite Hi. cbv beta iota. cbn [local_id]. by rewrite Hl.
Qed.

(** The part of C2 that the code keeps: when the stored ids are distinct
    and one of the requested ids is not stored, the call is refused and
    nothing is removed. *)
Lemma delete_absent_id s ids delete_all namespace l ix z :
  partition s namespace = Some (l, ix) →
  NoDup (Vector.id <$> l) →
  z ∈ ids → z ∉ Vector.id <$> l →
  delete (Some ids) delete_all namespace s = (Raise (ValueError NotAllIdsFound), s).
Proof.
  intros [Hl Hi]%partition_lookups Hnd Hz Hzl.
  unfold delete, bind at 1, get_state.
  rewrite namespace_present by (by rewrite Hl).
  unfold __return_ids. py_unfold. rewrite Hl. cbv beta iota.
  rewrite bool_decide_true; [done|].
  rewrite positions_in_length.
  pose proof (matching_some_absent ids l z Hnd Hz Hzl). lia.
Qed.

(** C2: when every requested id is stored, the rows at their positions
    are removed from the index, and then [__remove_ids] compares the number
    of records that are left with the number of requested ids.  Unless
    exactly half of the records were requested, it raises, and the record
    list keeps every record, the requested ones too, over an index that
    has lost their rows. *)
Theorem delete_present_ids_refused s ids delete_all namespace l ix :
  partition s namespace = Some (l, ix) →
  length l = IndexFlatIP.ntotal ix →
  NoDup (Vector.id <$> l) → NoDup ids →
  (∀ x, x ∈ ids → x ∈ Vector.id <$> l) →
  length l ≠ 2 * length ids →
  ∃ s', delete (Some ids) delete_all namespace s
        = (Raise (ValueError NotAllIdsFound), s')
    ∧ records_of s' namespace = l
    ∧ length (rows_of s' namespace) = length l - length ids.
Proof.
  intros [Hl Hi]%partition_lookups Hlen Hnd Hids Hsub Hhalf.
  pose proof (matching_all_present ids l Hnd Hids Hsub) as Hmatch.
  pose proof (filter_complement_length ids l) as Hcompl.
  exists {| local_id := local_id s;
            index := <[namespace :=
                         PyIndex (IndexFlatIP.mk (IndexFlatIP.d ix)
                                    (drop_positions (positions_in ids 0 l) 0
                                       (IndexFlatIP.rows ix)))]> (index s) |}.
  split; [| split].
  - unfold delete, bind at 1, get_state.
    rewrite namespace_present by (by rewrite Hl).
    unfold __return_ids, __remove_ids. py_unfold. rewrite Hl. cbv beta iota.
    rewrite bool_decide_false by (rewrite positions_in_length; lia).
    rewrite Hi. cbv beta iota.
    unfold IndexFlatIP.remove_ids. rewrite <- Hlen, positions_in_range.
    cbn [local_id]. rewrite Hl.
    rewrite bool_decide_true by lia. reflexivity.
  - unfold records_of. cbn [local_id]. by rewrite Hl.
  - unfold rows_of. cbn [index]. rewrite lookup_insert_eq. cbn [IndexFlatIP.rows].
    rewrite (drop_positions_length ids _ l); [lia | exact Hlen |].
    intros j v Hj. rewrite elem_of_positions_in. cbn. rewrite Nat.sub_0_r.
    split.
    + intros (_ & v' & Hv' & Hin). by simplify_eq.
    + intros Hin. split; [lia | eauto].
Qed.

(** When exactly half of the records are requested the call goes through:
    the records with a requested id leave the list, the others keep their
    order, and the rows at their positions leave the index. *)
Lemma delete_half s ids delete_all namespace l ix :
  partition s namespace = Some (l, ix) →
  length l = IndexFlatIP.ntotal ix →
  NoDup (Vector.id <$> l) → NoDup ids →
  (∀ x, x ∈ ids → x ∈ Vector.id <$> l) →
  length l = 2 * length ids →
  delete (Some ids) delete_all namespace s
  = (Return tt,
     {| local_id := <[namespace := PyList (filter (λ v, Vector.id v ∉ ids) l)]>
                      (local_id s);
        index := <[namespace :=
                     PyIndex (IndexFlatIP.mk (IndexFlatIP.d ix)
                                (drop_positions (positions_in ids 0 l) 0
                                   (IndexFlatIP.rows ix)))]> (index s) |}).
Proof.
  intros [Hl Hi]%partition_lookups Hlen Hnd Hids Hsub Hhalf.
  pose proof (matching_all_present ids l Hnd Hids Hsub) as Hmatch.
  pose proof (filter_complement_length ids l) as Hcompl.
  unfold delete, bind at 1, get_state.
  rewrite namespace_present by (by rewrite Hl).
  unfold __return_ids, __remove_ids. py_unfold. rewrite Hl. cbv beta iota.
  rewrite bool_decide_false by (rewrite positions_in_length; lia).
  rewrite Hi. cbv beta iota.
  unfold IndexFlatIP.remove_ids. rewrite <- Hlen, positions_in_range.
  cbn [local_id]. rewrite Hl.
  rewrite bool_decide_false by lia. reflexivity.
Qed.

(** ** The records a search returns *)

Lemma with_records_same s namespace l :
  local_id s !! namespace = Some (PyList l) → with_records s namespace l = s.
Proof.
  intros H. destruct s as [li ii]. unfold with_records. cbn in *.
  by rewrite insert_id.
Qed.

Lemma with_records_twice s namespace l l' :
  with_records (with_records s namespace l) namespace l' = with_records s namespace l'.
Proof. unfold with_records. cbn. by rewrite insert_insert_eq. Qed.

Lemma with_score_twice (v : Vector.t F) (a b : F) :
  with_score (with_score v a) b = with_score v b.
Proof. unfold with_score. cbn. by rewrite insert_insert_eq. Qed.

Lemma rescored_refl l : rescored l l.
Proof. split; [done|]. intros i v Hv. exists v. by repeat split. Qed.

Lemma rescored_update l lk i (v u : Vector.t F) :
  rescored l lk →
  l !! i = Some v →
  Vector.id u = Vector.id v →
  Vector.embeddings u = Vector.embeddings v →
  (∀ sc, with_score u sc = with_score v sc) →
  rescored l (<[i := u]> lk).
Proof.
  intros [Hlen Hrec] Hv Hid Hemb Hsc. split; [by rewrite length_insert|].
  intros j w Hw. destruct (decide (i = j)) as [<- | Hne].
  - exists u. simplify_eq. split; [|done].
    apply list_lookup_insert_eq. rewrite Hlen. by eapply lookup_lt_Some.
  - rewrite list_lookup_insert_ne by done. by apply Hrec.
Qed.

Lemma return_vectors_loop_spec namespace l (hs : list (F * Z)) :
  Forall (in_range l) hs →
  ∀ s lk (pre : list F) acc upd,
    local_id s !! namespace = Some (PyList lk) →
    rescored l lk →
    ∃ lk' upd',
      return_vectors_loop namespace (length pre) hs.*2 (pre ++ hs.*1) acc upd s
      = (Return (acc ++ omap (matched l) hs, upd ++ upd'),
         with_records s namespace lk')
      ∧ rescored l lk'
      ∧ Forall (good_update l) upd'.
Proof.
  induction 1 as [|[score p] hs Hp Hhs IH]; intros s lk pre acc upd Hlk Hres.
  - exists lk, []. cbn. rewrite !app_nil_r, with_records_same by done.
    split; [done | split; [done | constructor]].
  - cbn [fmap list_fmap fst snd return_vectors_loop omap list_omap].
    assert (Hpre : pre ++ score :: hs.*1 = (pre ++ [score]) ++ hs.*1)
      by (by rewrite <- app_assoc).
    assert (Hlenpre : S (length pre) = length (pre ++ [score]))
      by (rewrite length_app; cbn; lia).
    destruct (decide (p = (-1)%Z)) as [-> | Hne].
    + rewrite bool_decide_false by (by intros Hn; apply Hn).
      unfold matched at 1. cbn [snd]. rewrite bool_decide_true by done.
      rewrite Hpre, Hlenpre. exact (IH s lk (pre ++ [score]) acc upd Hlk Hres).
    + rewrite bool_decide_true by done.
      destruct Hp as [? | Hp]; [done|]. cbn [snd] in Hp.
      destruct (lookup_lt_is_Some_2 l (Z.to_nat p)) as [v Hv]; [lia|].
      pose proof Hres as [Hlen Hrec].
      destruct (Hrec _ _ Hv) as (v' & Hv' & Hid & Hemb & Hsc).
      py_unfold. rewrite Hlk. cbv beta iota.
      rewrite bool_decide_true by lia. rewrite Hv'.
      rewrite list_lookup_middle by done.
      fold (with_score v' score). rewrite (Hsc score).
      fold (with_records s namespace (<[Z.to_nat p := with_score v score]> lk)).
      rewrite Hpre, Hlenpre.
      edestruct (IH (with_records s namespace (<[Z.to_nat p := with_score v score]> lk))
                   (<[Z.to_nat p := with_score v score]> lk) (pre ++ [score])
                   (acc ++ [with_score v score])
                   (upd ++ [(Z.to_nat p, with_score v score)]))
        as (lk' & upd' & Heq & Hres' & Hupd').
      { unfold with_records. cbn. by rewrite lookup_insert_eq. }
      { eapply rescored_update; [exact Hres | exact Hv | done | done |].
        intros sc. apply with_score_twice. }
      exists lk', ((Z.to_nat p, with_score v score) :: upd').
      rewrite Heq, with_records_twice. split; [| split; [done|]].
      * unfold matched at 2. cbn [fst snd].
        rewrite bool_decide_false by done. rewrite Hv. cbn.
        by rewrite <- !app_assoc.
      * constructor; [|done]. exists v. cbn. repeat split; try done.
        intros sc. apply with_score_twice.
Qed.

Lemma write_back_spec namespace l (upd : list (nat * Vector.t F)) :
  Forall (good_update l) upd →
  ∀ s lk,
    local_id s !! namespace = Some (PyList lk) →
    rescored l lk →
    ∃ lk', write_back namespace upd s = (Return tt, with_records s namespace lk')
      ∧ rescored l lk'.
Proof.
  induction 1 as [|[i u] upd (v & Hv & Hid & Hemb & Hsc) Hupd IH];
    intros s lk Hlk Hres.
  - exists lk. cbn. by rewrite with_records_same.
  - cbn [write_back]. cbn [fst snd] in *. py_unfold. rewrite Hlk. cbv beta iota.
    rewrite bool_decide_true
      by (destruct Hres as [-> _]; by eapply lookup_lt_Some).
    fold (with_records s namespace (<[i := u]> lk)).
    edestruct (IH (with_records s namespace (<[i := u]> lk)) (<[i := u]> lk))
      as (lk' & Heq & Hres').
    { unfold with_records. cbn. by rewrite lookup_insert_eq. }
    { by eapply (rescored_update l lk i v u). }
    exists lk'. by rewrite Heq, with_records_twice.
Qed.

(** [__return_vectors], on positions that are -1 or in range, returns
    for each position other than -1 the record stored there with the
    score at the same rank, in the order of the positions, and leaves in
    the store a rescored copy of the record list. *)
Lemma return_vectors_results s namespace l (hs : list (F * Z)) :
  local_id s !! namespace = Some (PyList l) →
  Forall (in_range l) hs →
  ∃ lk, __return_vectors hs.*2 hs.*1 namespace s
        = (Return (omap (matched l) hs), with_records s namespace lk)
    ∧ rescored l lk.
Proof.
  intros Hl Hhs.
  destruct (return_vectors_loop_spec namespace l hs Hhs s l [] [] [] Hl
              (rescored_refl l)) as (lk1 & upd & Hloop & Hres1 & Hupd).
  cbn [length app] in Hloop.
  destruct (write_back_spec namespace l upd Hupd (with_records s namespace lk1) lk1)
    as (lk2 & Hwb & Hres2); [by unfold with_records; cbn; rewrite lookup_insert_eq | done |].
  exists lk2. split; [|done].
  unfold __return_vectors. unfold bind at 1. rewrite Hloop. cbv beta iota.
  cbn [fst snd]. unfold bind at 1. rewrite Hwb. cbv beta iota.
  by rewrite with_records_twice.
Qed.

Lemma elem_of_rank_insert (c h : F * Z) (hs : list (F * Z)) :
  h ∈ IndexFlatIP.rank_insert c hs → h = c ∨ h ∈ hs.
Proof.
  induction hs as [|c' hs IH]; cbn [IndexFlatIP.rank_insert].
  - intros ?%list_elem_of_singleton. by left.
  - destruct (score_lt c.1 c'.1).
    + intros [-> | Hin]%elem_of_cons; [right; left|].
      destruct (IH Hin) as [-> | ?]; [by left | right; by right].
    + intros [-> | Hin]%elem_of_cons; [by left | by right].
Qed.

Lemma elem_of_scored (q : list F) i (rows : list (list F)) (h : F * Z) :
  h ∈ IndexFlatIP.scored q i rows →
  (Z.of_nat i ≤ h.2 < Z.of_nat (i + length rows))%Z.
Proof.
  revert i. induction rows as [|row rows IH]; intros i; cbn [IndexFlatIP.scored].
  - by intros ?%elem_of_nil.
  - intros [-> | Hin]%elem_of_cons; cbn; [lia|].
    apply IH in Hin. cbn in Hin. lia.
Qed.

(** The positions a search of the index returns are -1 or positions of
    rows. *)
Lemma hits_in_range (q : list F) (k : nat) ix l :
  length l = IndexFlatIP.ntotal ix →
  Forall (in_range l) (IndexFlatIP.hits q k ix).
Proof.
  intros Hlen. apply Forall_forall. intros h Hh.
  unfold IndexFlatIP.hits in Hh. apply elem_of_app in Hh as [Hh | Hh].
  - right. apply subseteq_take in Hh. unfold IndexFlatIP.ranked in Hh.
    assert (Hin : ∀ hs, h ∈ foldr IndexFlatIP.rank_insert [] hs → h ∈ hs).
    { induction hs as [|c hs IH]; [done|]. cbn.
      intros [-> | ?]%elem_of_rank_insert; [left | right; by apply IH]. }
    apply Hin, elem_of_scored in Hh. rewrite Hlen.
    unfold IndexFlatIP.ntotal. lia.
  - left. by apply elem_of_replicate_inv in Hh as ->.
Qed.

(** What is right in C5: a search by vector on a partition that holds
    rows returns, for each position the index reports other than -1 and in
    their order, a record with the id and the embedding of the record stored
    at the position and with its metadata plus the score; the store keeps
    its index and a rescored copy of the record list. *)
Lemma search_by_vector_results s (q : Vector.t F) (id : option string) top_k
    namespace l ix :
  partition s namespace = Some (l, ix) →
  length l = IndexFlatIP.ntotal ix →
  0 < IndexFlatIP.ntotal ix →
  ∃ lk, search (Some q) id top_k namespace s
        = (Return (omap (matched l)
                     (IndexFlatIP.hits (normalize_L2 (Vector.embeddings q)) top_k ix)),
           with_records s namespace lk)
    ∧ rescored l lk.
Proof.
  intros [Hl Hi]%partition_lookups Hlen Hpos.
  destruct (return_vectors_results s namespace l
              (IndexFlatIP.hits (normalize_L2 (Vector.embeddings q)) top_k ix) Hl
              (hits_in_range _ _ _ _ Hlen)) as (lk & Heq & Hres).
  exists lk. split; [|done].
  unfold search, bind at 1, get_state.
  rewrite namespace_present by (by rewrite Hl).
  py_unfold. rewrite Hi. cbv beta iota.
  rewrite bool_decide_true by done.
  unfold IndexFlatIP.search. exact Heq.
Qed.

(** ** The row-count invariant, where it is kept *)

Lemma rows_agree_with_records s namespace l lk ix :
  partition s namespace = Some (l, ix) →
  length l = IndexFlatIP.ntotal ix →
  length lk = length l →
  rows_agree (with_records s namespace lk) namespace.
Proof.
  intros [Hl Hi]%partition_lookups Hlen Hlk. exists lk, ix.
  unfold partition, with_records. cbn. rewrite lookup_insert_eq, Hi.
  split; [done | lia].
Qed.

Lemma search_keeps_rows_agree s (vector : option (Vector.t F)) (id : option string)
    top_k namespace :
  rows_agree s namespace →
  rows_agree (search vector id top_k namespace s).2 namespace.
Proof.
  intros (l & ix & Hp & Hlen).
  destruct (decide (IndexFlatIP.ntotal ix = 0)) as [Hz | Hnz].
  - pose proof Hp as [Hl Hi]%partition_lookups.
    rewrite (search_empty_partition _ _ _ _ _ ix); [by exists l, ix | | done | done].
    by rewrite Hl.
  - destruct vector as [q|].
    + destruct (search_by_vector_results s q id top_k namespace l ix Hp Hlen)
        as (lk & -> & [Hlk _]); [lia|].
      by eapply rows_agree_with_records.
    + pose proof Hp as [Hl Hi]%partition_lookups.
      assert (search None id top_k namespace s
              = (Raise TypeError, s)
              ∨ search None id top_k namespace s
                = (Raise (ValueError NeedVectorOrId), s)) as [-> | ->];
        [| by exists l, ix | by exists l, ix].
      unfold search, bind, get_state.
      rewrite namespace_present by (by rewrite Hl).
      py_unfold. rewrite Hi. cbv beta iota.
      rewrite bool_decide_true by lia.
      destruct (bool_decide _); [by left | by right].
Qed.

Lemma add_keeps_rows_agree s (vectors : list (Vector.t F)) namespace l ix :
  target s namespace vectors = Some (l, ix) →
  length l = IndexFlatIP.ntotal ix →
  rows_agree (add vectors namespace s).2 namespace.
Proof.
  intros Ht Hlen. rewrite (add_unfold _ _ _ _ _ Ht).
  pose proof (with_namespace_partition _ _ _ _ _ Ht) as Hp.
  destruct (add_check _ _ _ _ _).1.
  - eexists _, _. split.
    + unfold partition, extended. cbn. by rewrite !lookup_insert_eq.
    + unfold IndexFlatIP.ntotal, IndexFlatIP.add in *. cbn.
      rewrite !length_app, length_fmap. lia.
  - by exists l, ix.
Qed.

Lemma delete_all_keeps_rows_agree s namespace l ix :
  partition s namespace = Some (l, ix) →
  rows_agree (delete None true namespace s).2 namespace.
Proof.
  intros Hp. rewrite (delete_all_empties _ _ _ _ Hp).
  exists [], (IndexFlatIP.reset ix). split; [|done].
  unfold partition. cbn. by rewrite !lookup_insert_eq.
Qed.

End Properties.

(** ** Construction and persistence *)

Section PersistenceProperties.
Context {F Blob : Type} `{!Codec F Blob}.

Implicit Types (self : FAISSVectorStore F) (fs : FileSystem Blob).
Implicit Types (namespaces : list (option string)).

Ltac io_unfold :=
  repeat progress
    (unfold bind, ret, raise, lift, mkdir, write_file, item, faiss_write,
       pickle_to, save_namespace;
     cbv beta iota).

(** A store built with no argument has the default namespace, empty, with
    an index of the configured dimension. *)
Lemma init_default (d : nat) :
  __init__ (F:=F) None None d
  = Return {| local_id := {[ None := PyList [] ]};
              index := {[ None := PyIndex (IndexFlatIP.new d) ]} |}.
Proof. reflexivity. Qed.

Lemma init_both (local_id_ index_ : gmap (option string) (PyObj F)) (d : nat) :
  local_id_ ≠ ∅ → index_ ≠ ∅ →
  __init__ (Some local_id_) (Some index_) d
  = Return {| local_id := local_id_; index := index_ |}.
Proof.
  intros Hl Hi. unfold __init__. by rewrite !bool_decide_true.
Qed.

(** C3: saving one namespace other than the default never writes its
    files.  In that branch of [save_local] the name of the index file is
    built from [namespace_], a variable that only the loop of the other
    branch binds, so the call ends in an [UnboundLocalError] once the
    directory is made, and there is nothing to load back. *)
Theorem save_local_named_unbound self (dir_path n : string) fs :
  is_Some (local_id self !! Some n) →
  is_Some (index self !! Some n) →
  save_local self dir_path (Some n) false fs
  = (Raise UnboundLocalError,
     {| dirs := {[dir_path]} ∪ dirs fs; files := files fs |}).
Proof.
  intros Hl [oi Hi]. unfold save_local. io_unfold.
  rewrite namespace_present by done.
  cbn [index local_id]. by rewrite Hi.
Qed.

(** What the code keeps of the round trip: the default namespace, saved on
    its own under the name [index], is read back as it was, records and
    rows in their order, whenever the two serialisers read back what they
    wrote.  The empty partition is no exception. *)
Lemma save_load_default `{!CodecLaws F Blob} self (dir_path : string) (d : nat) fs
    (l : list (Vector.t F)) (ix : IndexFlatIP.t F) :
  partition self None = Some (l, ix) →
  ∃ fs', save_local self dir_path None false fs = (Return tt, fs')
    ∧ files fs' !! join dir_path "index.faiss" = Some (write_index ix)
    ∧ files fs' !! join dir_path "index.pkl" = Some (pickle_dump l)
    ∧ load_local [None] dir_path d fs'
      = Return {| local_id := {[ None := PyList l ]};
                  index := {[ None := PyIndex ix ]} |}.
Proof.
  intros [Hl Hi]%partition_lookups.
  assert (Hne : join dir_path "index.pkl" ≠ join dir_path "index.faiss").
  { intros H. apply (inj (String.app dir_path)) in H. discriminate. }
  exists {| dirs := {[dir_path]} ∪ dirs fs;
            files := <[join dir_path "index.pkl" := pickle_dump l]>
                       (<[join dir_path "index.pkl" := no_bytes]>
                          (<[join dir_path "index.faiss" := write_index ix]>
                             (files fs))) |}.
  split; [| split; [| split]].
  - unfold save_local. io_unfold.
    rewrite namespace_present by (by rewrite Hl).
    cbn [index local_id stem_of_local stem]. rewrite Hi. cbv beta iota.
    cbn [files dirs]. rewrite Hl. reflexivity.
  - cbn [files]. by rewrite !(lookup_insert_ne _ _ _ _ Hne), lookup_insert_eq.
  - cbn [files]. by rewrite lookup_insert_eq.
  - unfold load_local. cbn [dirs files].
    rewrite bool_decide_false by set_solver.
    cbn [load_each stem].
    change ("index" +:+ ".faiss") with "index.faiss".
    change ("index" +:+ ".pkl") with "index.pkl". cbn [files].
    rewrite lookup_insert_eq.
    rewrite !(lookup_insert_ne _ _ _ _ Hne), lookup_insert_eq.
    cbn [mbind option_bind]. rewrite read_write_index, pickle_load_dump.
    cbn [obind fst snd].
    rewrite bool_decide_false by (rewrite dom_insert_L; set_solver).
    rewrite init_both by apply insert_non_empty.
    by rewrite !insert_empty.
Qed.

Lemma load_each_dom fs (path : string) namespaces
    (local_id_ index_ local_id' index' : gmap (option string) (PyObj F)) :
  load_each fs path namespaces local_id_ index_ = Return (local_id', index') →
  dom index' = dom index_ ∪ list_to_set namespaces.
Proof.
  revert local_id_ index_.
  induction namespaces as [|namespace rest IH]; intros local_id_ index_ H.
  - cbn in H. inversion H; subst. set_solver.
  - cbn [load_each] in H.
    destruct (files fs !! _ ≫= read_index) as [index|]; [|discriminate].
    destruct (files fs !! _ ≫= pickle_load) as [ids|]; [|discriminate].
    apply IH in H. rewrite H, dom_insert_L. set_solver.
Qed.

(** C9: when the default namespace is not among the namespaces asked for,
    [load_local] does add the key [None] to both dictionaries, but the wrong
    way round: the record list of the default namespace is the fresh index,
    and its index is the empty list. *)
Theorem load_local_default_swapped namespaces (dir_path : string) (d : nat) fs
    (store : FAISSVectorStore F) :
  None ∉ namespaces →
  load_local namespaces dir_path d fs = Return store →
  local_id store !! None = Some (PyIndex (IndexFlatIP.new d))
  ∧ index store !! None = Some (PyList []).
Proof.
  intros Hnone. unfold load_local.
  destruct (bool_decide (dir_path ∉ dirs fs)); [discriminate|].
  destruct (load_each fs dir_path namespaces ∅ ∅) as [[local_id_ index_]|e] eqn:E;
    [|discriminate].
  apply load_each_dom in E. cbn [obind fst snd].
  rewrite bool_decide_true.
  - rewrite init_both by apply insert_non_empty.
    intros [= <-]. cbn [local_id index]. by rewrite !lookup_insert_eq.
  - rewrite E, dom_empty_L. rewrite elem_of_union, elem_of_list_to_set.
    intros [?%elem_of_empty | ?]; done.
Qed.

End PersistenceProperties.

(** * The scenarios, on the binary64 instance *)

Example store0_constructed : __init__ None None 2 = Return store0.
Proof. reflexivity. Qed.

(** Scenario A: the nearest record to [[1, 0]] is "a", with score 1; the
    stored record carries the score from then on. *)
Example scenario_A :
  search (Some (Vector.mk "" [1; 0]%float ∅)) None 1 None store_ab
  = (Return [Vector.mk "a" [1; 0]%float {[ "score"%string := MNum 1%float ]}],
     {| local_id :=
          {[ None := PyList [Vector.mk "a" [1; 0]%float
                               {[ "score"%string := MNum 1%float ]}; rec_b] ]};
        index := index store_ab |}).
Proof. vm_compute. reflexivity. Qed.

(** Scenario E *)
Example scenario_E :
  search (Some rec_a) None 1 (Some "nowhere"%string) store_ab = (Return [], store_ab).
Proof. vm_compute. reflexivity. Qed.

(** Scenario B, with a query on which binary64 is exact: both records
    are returned, the one with the higher score first. *)
Example scenario_B :
  Vector.id <$> default [] (match (search (Some rec_c) None 2 None store_ab).1 with
                            | Return r => Some r
                            | Raise _ => None
                            end)
  = ["b"; "a"]%string.
Proof. vm_compute. reflexivity. Qed.

(** Scenario C: one of the two requested ids is not stored. *)
Example scenario_C :
  delete (Some ["a"; "z"]%string) false None store_ab
  = (Raise (ValueError NotAllIdsFound), store_ab).
Proof. vm_compute. reflexivity. Qed.

(** Scenario D *)
Example scenario_D :
  add [rec_wide] None store_ab = (Raise (ValueError (WrongSize 2 3)), store_ab).
Proof. vm_compute. reflexivity. Qed.

(** Saving every namespace writes the pair of files of each, [index] for
    the default namespace and [docs_index] for the namespace "docs", and
    loading the two namespaces gives the store back. *)
Example save_all_round_trip :
  ∃ fs', save_local store_docs "data" None true fs0 = (Return tt, fs')
    ∧ dom (files fs')
      = {[ "data/index.faiss"; "data/index.pkl";
           "data/docs_index.faiss"; "data/docs_index.pkl" ]}
    ∧ load_local [None; Some "docs"%string] "data" 2 fs' = Return store_docs.
Proof.
  eexists. split; [vm_compute; reflexivity|].
  split; vm_compute; reflexivity.
Qed.

(** C1: three records are stored and one of them is deleted by id.  The
    row leaves the index, then [__remove_ids] finds two records left for one
    requested id and raises: the record list keeps its three records over
    an index of two rows. *)
Theorem delete_breaks_row_count :
  rows_agree store_abc None
  ∧ (delete (Some ["a"%string]) false None store_abc).1
    = Raise (ValueError NotAllIdsFound)
  ∧ records_of (delete (Some ["a"%string]) false None store_abc).2 None
    = [rec_a; rec_b; rec_c]
  ∧ length (rows_of (delete (Some ["a"%string]) false None store_abc).2 None) = 2
  ∧ ¬ rows_agree (delete (Some ["a"%string]) false None store_abc).2 None.
Proof.
  split; [| split; [| split; [| split]]].
  - eexists _, _. split; vm_compute; reflexivity.
  - vm_compute. reflexivity.
  - vm_compute. reflexivity.
  - vm_compute. reflexivity.
  - intros (l & ix & Hp & Hlen). vm_compute in Hp.
    inversion Hp; subst. vm_compute in Hlen. discriminate.
Qed.

(** C5: the query carries the metadata entry "tag"; the record returned
    for it has the id and the embedding of the stored record and the score,
    but not the entry of the query, which the metadata described by the
    specification would hold. *)
Theorem search_result_without_query_metadata :
  ∃ r, (search (Some query_tagged) None 1 None store_ab).1 = Return [r]
    ∧ Vector.id r = Vector.id rec_a
    ∧ Vector.embeddings r = Vector.embeddings rec_a
    ∧ Vector.metadata r = <["score"%string := MNum 1%float]> (Vector.metadata rec_a)
    ∧ Vector.metadata r !! "tag"%string = None
    ∧ merged_metadata (Some query_tagged) rec_a 1%float !! "tag"%string
      = Some (MStr "x").
Proof.
  eexists. split; [vm_compute; reflexivity|].
  repeat split; vm_compute; reflexivity.
Qed.

(** C6, as the specification has it, fails where the namespace is new: the
    call is refused for the repeated id "a", and the store is not the one
    it was, for it now has the namespace "docs". *)
Lemma add_duplicate_registers_namespace :
  (add [rec_a; rec_a] (Some "docs"%string) store0).1
  = Raise (ValueError (Duplicated "a"))
  ∧ local_id store0 !! Some "docs"%string = None
  ∧ local_id (add [rec_a; rec_a] (Some "docs"%string) store0).2 !! Some "docs"%string
    = Some (PyList [])
  ∧ index (add [rec_a; rec_a] (Some "docs"%string) store0).2 !! Some "docs"%string
    = Some (PyIndex (IndexFlatIP.new 2))
  ∧ (add [rec_a; rec_a] (Some "docs"%string) store0).2 ≠ store0.
Proof.
  repeat split; try (vm_compute; reflexivity).
  intros H. apply (f_equal (λ s, local_id s !! Some "docs"%string)) in H.
  vm_compute in H. discriminate.
Qed.

(** C7: a record whose id is the empty string is added like any other;
    [add] has no check of the id but the one for duplicates. *)
Theorem add_accepts_empty_id :
  add [rec_unnamed] None store0
  = (Return tt,
     {| local_id := {[ None := PyList [rec_unnamed] ]};
        index := {[ None := PyIndex (IndexFlatIP.mk 2 [[1; 0]%float]) ]} |}).
Proof. vm_compute. reflexivity. Qed.

(** ** The general theorems at the scenarios *)

Lemma search_nothing_indexed_witness :
  search (Some rec_a) (Some "a"%string) 3 None store0 = (Return [], store0)
  ∧ search None None 1 (Some "nowhere"%string) store_ab = (Return [], store_ab).
Proof.
  split.
  - apply (search_nothing_indexed store0 (Some rec_a) (Some "a"%string) 3 None).
    right. split; [by eexists | exists (IndexFlatIP.new 2)]. split; reflexivity.
  - apply (search_nothing_indexed store_ab None None 1 (Some "nowhere"%string)).
    left. reflexivity.
Defined.

Lemma search_by_id_type_error_witness :
  search None (Some "a"%string) 1 None store_ab = (Raise TypeError, store_ab).
Proof.
  apply (search_by_id_type_error store_ab "a" 1 None
           (IndexFlatIP.mk 2 [[1; 0]; [0; 1]]%float)).
  - eexists. vm_compute. reflexivity.
  - vm_compute. reflexivity.
  - vm_compute. lia.
  - discriminate.
Defined.

Lemma add_wrong_dimension_witness :
  ∃ s', add [rec_a; rec_wide] None store0
        = (Raise (ValueError (WrongSize 2 3)), s')
    ∧ kind_of (ValueError (WrongSize 2 3)) = Some DimensionMismatch
    ∧ records_of s' None = records_of store0 None
    ∧ rows_of s' None = rows_of store0 None.
Proof.
  apply (add_wrong_dimension store0 None [rec_a] rec_wide [] [] (IndexFlatIP.new 2)).
  - vm_compute. reflexivity.
  - repeat constructor.
  - apply (bool_decide_unpack _). vm_compute. exact I.
  - intros u _. apply (bool_decide_unpack _). vm_compute. exact I.
  - vm_compute. lia.
Defined.

Lemma add_duplicate_id_witness :
  ∃ s', add [rec_a; rec_a] (Some "docs"%string) store0
        = (Raise (ValueError (Duplicated "a")), s')
    ∧ kind_of (ValueError (Duplicated "a")) = Some DuplicateId
    ∧ records_of s' (Some "docs"%string) = records_of store0 (Some "docs"%string)
    ∧ rows_of s' (Some "docs"%string) = rows_of store0 (Some "docs"%string)
    ∧ (is_Some (local_id store0 !! Some "docs"%string) → s' = store0)
    ∧ (local_id store0 !! Some "docs"%string = None →
       s' = {| local_id := <[Some "docs"%string := PyList []]> (local_id store0);
               index := <[Some "docs"%string := PyIndex (IndexFlatIP.new 2)]>
                          (index store0) |}).
Proof.
  apply (add_duplicate_id store0 (Some "docs"%string) [rec_a] rec_a [] []
           (IndexFlatIP.new 2)).
  - vm_compute. reflexivity.
  - repeat constructor.
  - apply (bool_decide_unpack _). vm_compute. exact I.
  - intros u _. apply (bool_decide_unpack _). vm_compute. exact I.
  - apply (bool_decide_unpack _). vm_compute. exact I.
Defined.

Lemma delete_present_ids_refused_witness :
  ∃ s', delete (Some ["a"; "b"]%string) false None store_abc
        = (Raise (ValueError NotAllIdsFound), s')
    ∧ records_of s' None = [rec_a; rec_b; rec_c]
    ∧ length (rows_of s' None) = 3 - 2.
Proof.
  apply (delete_present_ids_refused store_abc ["a"; "b"]%string false None
           [rec_a; rec_b; rec_c] (IndexFlatIP.mk 2 (rows_of store_abc None))).
  - vm_compute. reflexivity.
  - vm_compute. reflexivity.
  - apply (bool_decide_unpack _). vm_compute. exact I.
  - apply (bool_decide_unpack _). vm_compute. exact I.
  - intros x Hx. apply (bool_decide_unpack _).
    apply elem_of_cons in Hx as [-> | Hx]; [vm_compute; exact I|].
    apply list_elem_of_singleton in Hx as ->. vm_compute. exact I.
  - vm_compute. lia.
Defined.

Lemma save_local_named_unbound_witness :
  save_local store_docs "data" (Some "docs"%string) false fs0
  = (Raise UnboundLocalError,
     {| dirs := {["data"%string]} ∪ dirs fs0; files := files fs0 |}).
Proof.
  apply (save_local_named_unbound store_docs "data" "docs" fs0).
  - eexists. vm_compute. reflexivity.
  - eexists. vm_compute. reflexivity.
Defined.

Lemma load_local_default_swapped_witness :
  local_id {| local_id := {[ None := PyIndex (IndexFlatIP.new 7) ]};
              index := {[ None := PyList (F:=float) [] ]} |} !! None
  = Some (PyIndex (IndexFlatIP.new 7))
  ∧ index {| local_id := {[ None := PyIndex (IndexFlatIP.new 7) ]};
             index := {[ None := PyList (F:=float) [] ]} |} !! None
    = Some (PyList []).
Proof.
  apply (load_local_default_swapped [] "data" 7 fs0).
  - apply (bool_decide_unpack _). vm_compute. exact I.
  - vm_compute. reflexivity.
Defined.

(** The store that [load_local] returns for scenario E's directory can not
    be searched: its default index is a list. *)
Example loaded_default_unusable :
  ∃ store, load_local [] "data" 2 fs0 = Return store
    ∧ (search (Some rec_a) None 1 None store).1 = Raise AttributeError
    ∧ (add [rec_a] None store).1 = Raise TypeError.
Proof. eexists. split; [vm_compute; reflexivity|]. split; vm_compute; reflexivity. Qed.

(** * Further properties of the store *)

Section MoreProperties.
Context {F : Type} `{!FloatOps F}.

Implicit Types (s : FAISSVectorStore F) (namespace : option string).
Implicit Types (l : list (Vector.t F)) (ix : IndexFlatIP.t F) (ids : list string).

Ltac py_unfold :=
  repeat progress
    (unfold bind, ret, raise, get_state, lift, get_local_id, get_index,
       set_local_id, set_index, iter_list, attr_index;
     cbv beta iota).

(** ** One namespace at a time *)

Lemma only_touches_unchanged {A} namespace (m : Py (FAISSVectorStore F) A) :
  (∀ s, (m s).2 = s) → only_touches namespace m.
Proof. intros H s other _. by rewrite H. Qed.

Lemma only_touches_bind {A B} namespace (m : Py (FAISSVectorStore F) A)
    (k : A → Py (FAISSVectorStore F) B) :
  only_touches namespace m → (∀ a, only_touches namespace (k a)) →
  only_touches namespace (bind m k).
Proof.
  intros Hm Hk s other Hne. unfold bind.
  destruct (Hm s other Hne) as [Hl Hi].
  destruct (m s) as [[a|e] s1]; cbn [snd] in *; [|done].
  destruct (Hk a s1 other Hne) as [Hl' Hi']. by rewrite Hl', Hi'.
Qed.

Lemma only_touches_set_local_id namespace (o : PyObj F) :
  only_touches namespace (set_local_id namespace o).
Proof.
  intros s other Hne. unfold set_local_id. cbn.
  by rewrite lookup_insert_ne.
Qed.

Lemma only_touches_set_index namespace (o : PyObj F) :
  only_touches namespace (set_index namespace o).
Proof.
  intros s other Hne. unfold set_index. cbn.
  by rewrite lookup_insert_ne.
Qed.

Ltac frame :=
  repeat first
    [ apply only_touches_set_local_id
    | apply only_touches_set_index
    | apply only_touches_bind; [|intros ?]
    | match goal with
      | |- only_touches _ (if ?b then _ else _) => destruct b
      | |- only_touches _ (match ?x with _ => _ end) => destruct x
      | |- only_touches _ (let '(_, _) := ?x in _) => destruct x
      end
    | by (apply only_touches_unchanged; intros ?;
          unfold get_local_id, get_index, iter_list, attr_index, ret, raise,
            lift, get_state;
          repeat case_match) ].

Lemma only_touches_return_vectors_loop namespace i_ (positions : list Z)
    (distance : list F) acc upd :
  only_touches namespace (return_vectors_loop namespace i_ positions distance acc upd).
Proof.
  revert i_ acc upd.
  induction positions as [|p positions IH]; intros i_ acc upd;
    cbn [return_vectors_loop]; frame; apply IH.
Qed.

Lemma only_touches_write_back namespace (upd : list (nat * Vector.t F)) :
  only_touches namespace (write_back namespace upd).
Proof.
  induction upd as [|[i v] upd IH]; cbn [write_back]; frame; apply IH.
Qed.

Lemma only_touches_add_check namespace ids ids_vector (vectors : list (Vector.t F)) :
  only_touches namespace (add_check namespace ids ids_vector vectors).
Proof.
  apply only_touches_unchanged. intros s. apply add_check_state.
Qed.

Lemma only_touches_add namespace (vectors : list (Vector.t F)) :
  only_touches namespace (add vectors namespace).
Proof. unfold add. frame. apply only_touches_add_check. Qed.

Lemma only_touches_delete namespace (ids : option (list string)) (delete_all : bool) :
  only_touches (F:=F) namespace (delete ids delete_all namespace).
Proof. unfold delete, __return_ids, __remove_ids. frame. Qed.

Lemma only_touches_search namespace (vector : option (Vector.t F))
    (id : option string) (top_k : nat) :
  only_touches namespace (search vector id top_k namespace).
Proof.
  unfold search, __return_vectors, __return_embeddings. frame;
    first [apply only_touches_return_vectors_loop | apply only_touches_write_back].
Qed.


(** ** Sound partitions are kept *)

Lemma sound_length l ix : sound l ix → length l = IndexFlatIP.ntotal ix.
Proof.
  intros (_ & _ & Hrows). unfold IndexFlatIP.ntotal.
  by rewrite Hrows, length_fmap.
Qed.

Lemma sound_empty (d : nat) : sound (F:=F) [] (IndexFlatIP.new d).
Proof. split; [constructor | split; [constructor | done]]. Qed.

Lemma add_check_inv namespace ids ids_vector (vectors : list (Vector.t F)) s ix :
  index s !! namespace = Some (PyIndex ix) →
  (add_check namespace ids ids_vector vectors s).1 = Return tt →
  NoDup ids_vector →
  NoDup (ids_vector ++ (Vector.id <$> vectors))
  ∧ (∀ u, u ∈ vectors → Vector.id u ∉ ids)
  ∧ Forall (λ u, length (Vector.embeddings u) = IndexFlatIP.d ix) vectors.
Proof.
  intros Hix. revert ids_vector.
  induction vectors as [|v rest IH]; intros ids_vector Hret Hnd.
  - rewrite app_nil_r. split; [done | split; [|constructor]].
    by intros u ?%elem_of_nil.
  - cbn [add_check] in Hret.
    destruct (bool_decide (Vector.id v ∈ ids)) eqn:Hids; [done|].
    destruct (bool_decide (Vector.id v ∈ ids_vector)) eqn:Hiv; [done|].
    cbn [orb] in Hret. apply bool_decide_eq_false in Hids, Hiv.
    revert Hret. py_unfold. rewrite Hix. cbv beta iota.
    case_bool_decide as Hdim; [done|]. intros Hret.
    assert (Hlen : length (Vector.embeddings v) = IndexFlatIP.d ix)
      by (destruct (decide (length (Vector.embeddings v) = IndexFlatIP.d ix)); done).
    destruct (IH (ids_vector ++ [Vector.id v]) Hret) as (Hnd' & Hrest & Hdims).
    { apply NoDup_app. split; [done|]. split; [|apply NoDup_singleton].
      intros x Hx ->%list_elem_of_singleton. done. }
    rewrite <- app_assoc in Hnd'. split; [done | split].
    + intros u [-> | Hu]%elem_of_cons; [done | by apply Hrest].
    + by constructor.
Qed.

(* A call of [add] on a sound partition leaves a sound partition. *)
Lemma add_sound s (vectors : list (Vector.t F)) namespace l ix :
  target s namespace vectors = Some (l, ix) →
  sound l ix →
  sound_partition (add vectors namespace s).2 namespace.
Proof.
  intros Ht (Hnd & Hdim & Hrows). rewrite (add_unfold _ _ _ _ _ Ht).
  pose proof (with_namespace_partition _ _ _ _ _ Ht) as Hp.
  pose proof Hp as [_ Hi1]%partition_lookups.
  destruct (add_check _ _ _ _ _).1 as [[]|e] eqn:Hcheck.
  - destruct (add_check_inv _ _ _ _ _ _ Hi1 Hcheck) as (Hnd' & Hnew & Hdims);
      [constructor|]. cbn [app] in Hnd'.
    eexists _, _. split.
    + unfold partition, extended. cbn. by rewrite !lookup_insert_eq.
    + split; [| split].
      * rewrite fmap_app. apply NoDup_app. split; [done | split; [|done]].
        intros x Hx (u & -> & Hu)%list_elem_of_fmap. by apply (Hnew u).
      * cbn. by apply Forall_app.
      * cbn. by rewrite fmap_app, Hrows.
  - by exists l, ix.
Qed.

Lemma rescored_fmap_id l lk : rescored l lk → Vector.id <$> lk = Vector.id <$> l.
Proof.
  intros [Hlen Hrec]. apply list_eq. intros i. rewrite !list_lookup_fmap.
  destruct (l !! i) as [v|] eqn:Hv.
  - destruct (Hrec i v Hv) as (v' & -> & Hid & _). cbn. by rewrite Hid.
  - apply lookup_ge_None in Hv. rewrite <- Hlen in Hv.
    apply lookup_ge_None in Hv. by rewrite Hv.
Qed.

Lemma rescored_fmap_embeddings l lk :
  rescored l lk → Vector.embeddings <$> lk = Vector.embeddings <$> l.
Proof.
  intros [Hlen Hrec]. apply list_eq. intros i. rewrite !list_lookup_fmap.
  destruct (l !! i) as [v|] eqn:Hv.
  - destruct (Hrec i v Hv) as (v' & -> & _ & Hemb & _). cbn. by rewrite Hemb.
  - apply lookup_ge_None in Hv. rewrite <- Hlen in Hv.
    apply lookup_ge_None in Hv. by rewrite Hv.
Qed.

Lemma sound_rescored l lk ix : sound l ix → rescored l lk → sound lk ix.
Proof.
  intros (Hnd & Hdim & Hrows) Hres. split; [| split].
  - by rewrite (rescored_fmap_id l lk).
  - apply (Forall_fmap Vector.embeddings (λ e, length e = IndexFlatIP.d ix)).
    rewrite (rescored_fmap_embeddings l lk Hres). by apply Forall_fmap.
  - rewrite Hrows.
    change ((normalize_L2 ∘ Vector.embeddings) <$> l
            = (normalize_L2 ∘ Vector.embeddings) <$> lk).
    rewrite !list_fmap_compose.
    by rewrite (rescored_fmap_embeddings l lk Hres).
Qed.

(** The store after a search, whatever the query and the outcome: the one
    before, or the one before with a rescored copy of the record list. *)
Lemma search_store s (vector : option (Vector.t F)) (id : option string) top_k
    namespace l ix :
  partition s namespace = Some (l, ix) →
  length l = IndexFlatIP.ntotal ix →
  (search vector id top_k namespace s).2 = s
  ∨ ∃ lk, (search vector id top_k namespace s).2 = with_records s namespace lk
          ∧ rescored l lk.
Proof.
  intros Hp Hlen. pose proof Hp as [Hl Hi]%partition_lookups.
  destruct (decide (IndexFlatIP.ntotal ix = 0)) as [Hz | Hnz].
  - left. rewrite (search_empty_partition _ _ _ _ _ ix); [done | | done | done].
    by rewrite Hl.
  - destruct vector as [q|].
    + right.
      destruct (search_by_vector_results s q id top_k namespace l ix Hp Hlen)
        as (lk & -> & Hres); [lia|]. by exists lk.
    + left. unfold search, bind, get_state.
      rewrite namespace_present by (by rewrite Hl).
      py_unfold. rewrite Hi. cbv beta iota.
      rewrite bool_decide_true by lia.
      by destruct (bool_decide _).
Qed.

(* A search leaves a sound partition sound. *)
Lemma search_sound s (vector : option (Vector.t F)) (id : option string)
    top_k namespace :
  sound_partition s namespace →
  sound_partition (search vector id top_k namespace s).2 namespace.
Proof.
  intros (l & ix & Hp & Hsound).
  destruct (search_store s vector id top_k namespace l ix Hp (sound_length _ _ Hsound))
    as [-> | (lk & -> & Hres)]; [by exists l, ix|].
  pose proof Hp as [_ Hi]%partition_lookups.
  exists lk, ix. split; [| by eapply sound_rescored].
  unfold partition, with_records. cbn. by rewrite lookup_insert_eq, Hi.
Qed.

Lemma sound_partition_lookups s s' namespace :
  local_id s' !! namespace = local_id s !! namespace →
  index s' !! namespace = index s !! namespace →
  sound_partition s namespace → sound_partition s' namespace.
Proof.
  intros Hl Hi (l & ix & Hp & Hsound). exists l, ix. split; [|done].
  unfold partition in *. by rewrite Hl, Hi.
Qed.

Lemma run_touches_one (c : call) s other :
  match c with
  | CallAdd _ namespace | CallSearch _ _ _ namespace | CallDeleteAll namespace =>
      other ≠ namespace
  end →
  local_id (run c s) !! other = local_id s !! other
  ∧ index (run c s) !! other = index s !! other.
Proof.
  destruct c as [vectors namespace | vector id top_k namespace | namespace];
    intros Hne; cbn [run].
  - by apply only_touches_add.
  - by apply only_touches_search.
  - by apply only_touches_delete.
Qed.

(** X2: whatever a call of [add] returns or raises, when it works on a
    sound partition (the one of the namespace, or the empty one that it
    creates for a new namespace) it leaves a sound partition: ids distinct,
    every embedding of the dimension of the index, and each row the
    normalized embedding of the record at its position.  And a call that
    raises adds nothing: the partition is the one the call worked on. *)
Theorem add_keeps_sound s (vectors : list (Vector.t F)) namespace l ix :
  target s namespace vectors = Some (l, ix) →
  sound l ix →
  sound_partition (add vectors namespace s).2 namespace
  ∧ ((add vectors namespace s).1 ≠ Return tt →
     partition (add vectors namespace s).2 namespace = Some (l, ix)).
Proof.
  intros Ht Hsound. split; [by apply (add_sound _ _ _ l ix)|].
  rewrite (add_unfold _ _ _ _ _ Ht).
  pose proof (with_namespace_partition _ _ _ _ _ Ht) as Hp.
  destruct (add_check _ _ _ _ _).1 as [[]|e]; [by intros []|done].
Qed.

(** X3: a search leaves a sound partition sound, for every query and
    every outcome: it may write scores into the metadata of the stored
    records, but it keeps their ids, their embeddings, their order and the
    rows of the index. *)
Theorem search_keeps_sound s (vector : option (Vector.t F)) (id : option string)
    top_k namespace :
  sound_partition s namespace →
  let s' := (search vector id top_k namespace s).2 in
  sound_partition s' namespace
  ∧ Vector.id <$> records_of s' namespace = Vector.id <$> records_of s namespace
  ∧ Vector.embeddings <$> records_of s' namespace
    = Vector.embeddings <$> records_of s namespace
  ∧ rows_of s' namespace = rows_of s namespace.
Proof.
  intros Hs s'. split; [by apply search_sound|]. subst s'.
  destruct Hs as (l & ix & Hp & Hsound).
  destruct (search_store s vector id top_k namespace l ix Hp (sound_length _ _ Hsound))
    as [-> | (lk & -> & Hres)]; [done|].
  pose proof Hp as [Hl Hi]%partition_lookups.
  unfold records_of, rows_of, with_records. cbn [local_id index].
  rewrite lookup_insert_eq, Hl.
  split; [by apply rescored_fmap_id | split; [by apply rescored_fmap_embeddings | done]].
Qed.

Lemma run_keeps_sound_partition (c : call) s namespace :
  nonempty_add c →
  sound_store s →
  is_Some (local_id (run c s) !! namespace) ∨ is_Some (index (run c s) !! namespace) →
  sound_partition (run c s) namespace.
Proof.
  intros Hc Hs Hknown.
  set (ns := match c with
             | CallAdd _ ns | CallSearch _ _ _ ns | CallDeleteAll ns => ns
             end).
  destruct (decide (namespace = ns)) as [-> | Hne].
  - destruct c as [vectors ns' | vector id top_k ns' | ns']; cbn [run] in *; subst ns.
    + destruct (local_id s !! ns') as [o|] eqn:Hl.
      * destruct (Hs ns') as (l & ix & Hp & Hsound); [left; by rewrite Hl|].
        apply (add_sound _ _ _ l ix); [|done].
        unfold target. apply partition_lookups in Hp as [-> ->]. done.
      * destruct (index s !! ns') as [o|] eqn:Hi.
        { destruct (Hs ns') as (l & ix & Hp & _); [right; by rewrite Hi|].
          apply partition_lookups in Hp as [? _]. congruence. }
        destruct vectors as [|v0 rest]; [done|].
        apply (add_sound _ _ _ [] (IndexFlatIP.new (length (Vector.embeddings v0))));
          [| apply sound_empty].
        unfold target. by rewrite Hl, Hi.
    + destruct (partition s ns') as [[l ix]|] eqn:Hp.
      * apply search_sound. apply Hs.
        apply partition_lookups in Hp as [-> _]. left. done.
      * assert (Hsame : (search vector id top_k ns' s).2 = s).
        { destruct (local_id s !! ns') as [o|] eqn:Hl.
          - destruct (Hs ns') as (l & ix & Hp' & _); [left; by rewrite Hl|]. congruence.
          - by rewrite search_unknown_namespace. }
        rewrite Hsame in *. by apply Hs.
    + destruct (local_id s !! ns') as [o|] eqn:Hl.
      * destruct (Hs ns') as (l & ix & Hp & _); [left; by rewrite Hl|].
        rewrite (delete_all_empties _ _ l ix Hp).
        exists [], (IndexFlatIP.reset ix). split; [|apply sound_empty].
        unfold partition. cbn. by rewrite !lookup_insert_eq.
      * rewrite delete_unknown_namespace in * by done. by apply Hs.
  - destruct (run_touches_one c s namespace) as [Hl Hi].
    { destruct c; done. }
    apply (sound_partition_lookups s); [done | done |].
    apply Hs. by rewrite <- Hl, <- Hi.
Qed.

(** X4: a store in which every namespace is a sound partition stays so
    under [add] (of a call that holds at least one record), [search] and
    [delete] with [delete_all], whatever the call returns or raises. *)
Theorem run_keeps_sound_store (c : call) s :
  nonempty_add c → sound_store s → sound_store (run c s).
Proof. intros Hc Hs namespace. by apply run_keeps_sound_partition. Qed.

Lemma init_sound_store (d : nat) s :
  __init__ None None d = Return s → sound_store s.
Proof.
  intros [= <-] namespace Hknown. cbn in Hknown.
  assert (namespace = None) as ->.
  { destruct Hknown as [[? H] | [? H]];
      apply lookup_singleton_Some in H as [-> _]; done. }
  exists [], (IndexFlatIP.new d). split; [|apply sound_empty].
  unfold partition. cbn. by rewrite !lookup_singleton_eq.
Qed.

(** X5: every store reached from a store built with no argument by calls
    of [add] (with at least one record), [search] and [delete] with
    [delete_all], in any order and whatever they return or raise, has the
    default namespace, and every one of its namespaces has distinct ids,
    embeddings of the dimension of its index, and as its rows the
    normalized embeddings of its records, position by position. *)
Theorem reachable_store_sound (d : nat) (calls : list call) s0 :
  __init__ None None d = Return s0 →
  Forall nonempty_add calls →
  sound_store (foldl (λ s c, run c s) s0 calls)
  ∧ sound_partition (foldl (λ s c, run c s) s0 calls) None.
Proof.
  intros Hinit Hcalls.
  assert (Hs0 : sound_store s0 ∧ is_Some (local_id s0 !! None)).
  { split; [by eapply init_sound_store|]. inversion Hinit; subst. cbn.
    by rewrite lookup_singleton_eq. }
  clear Hinit. revert s0 Hs0.
  induction Hcalls as [|c calls Hc Hcalls IH]; intros s0 [Hs0 Hnone]; cbn [foldl].
  - split; [done|]. apply Hs0. by left.
  - apply IH. split; [intros ns ?; by apply run_keeps_sound_partition|].
    destruct (Hs0 None) as (l & ix & Hp & Hsound); [by left|].
    assert (sound_partition (run c s0) None → is_Some (local_id (run c s0) !! None)).
    { intros (l' & ix' & [-> _]%partition_lookups & _). done. }
    destruct c as [vectors ns | vector id top_k ns | ns]; cbn [run] in *.
    + destruct (decide (None = ns)) as [<- | Hne].
      * apply H. destruct vectors; [done|].
        apply (add_sound _ _ _ l ix); [|done].
        unfold target. apply partition_lookups in Hp as [-> ->]. done.
      * destruct (only_touches_add ns vectors s0 None Hne) as [-> _]. done.
    + destruct (decide (None = ns)) as [<- | Hne].
      * apply H, search_sound. by exists l, ix.
      * destruct (only_touches_search ns vector id top_k s0 None Hne) as [-> _]. done.
    + destruct (decide (None = ns)) as [<- | Hne].
      * rewrite (delete_all_empties _ _ l ix Hp). cbn. by rewrite lookup_insert_eq.
      * destruct (only_touches_delete ns None true s0 None Hne) as [-> _]. done.
Qed.

(** ** add, in full *)


(** X7: a call of [add] with no record on a namespace that is not there
    ends in an [IndexError] after the namespace has got its record list
    but before it gets its index.  From then on every [add] of records,
    every [search] and every [delete_all] on that namespace ends in a
    [KeyError]. *)
Theorem add_nothing_to_new_namespace s namespace :
  local_id s !! namespace = None →
  index s !! namespace = None →
  let s' := (add [] namespace s).2 in
  (add [] namespace s).1 = Raise IndexError
  ∧ local_id s' !! namespace = Some (PyList [])
  ∧ index s' !! namespace = None
  ∧ (∀ v rest, (add (v :: rest) namespace s').1 = Raise KeyError)
  ∧ (∀ vector id top_k, (search vector id top_k namespace s').1 = Raise KeyError)
  ∧ (delete None true namespace s').1 = Raise KeyError.
Proof.
  intros Hl Hi s'.
  assert (Hs' : add [] namespace s
                = (Raise IndexError,
                   {| local_id := <[namespace := PyList []]> (local_id s);
                      index := index s |})).
  { unfold add, bind at 1, get_state. rewrite namespace_absent by done. done. }
  subst s'. rewrite Hs'. cbn [fst snd].
  set (s1 := {| local_id := <[namespace := PyList []]> (local_id s);
                index := index s |}).
  assert (Hl1 : local_id s1 !! namespace = Some (PyList []))
    by (subst s1; cbn; by rewrite lookup_insert_eq).
  assert (Hi1 : index s1 !! namespace = None) by done.
  split; [done | split; [done | split; [done | split; [| split]]]].
  - intros v rest. unfold add, bind at 1, get_state.
    rewrite namespace_present by (by rewrite Hl1).
    py_unfold. rewrite Hl1. cbv beta iota. cbn [fmap list_fmap add_check].
    rewrite !bool_decide_false by (by intros ?%elem_of_nil). cbn [orb].
    py_unfold. by rewrite Hi1.
  - intros vector id top_k. unfold search, bind at 1, get_state.
    rewrite namespace_present by (by rewrite Hl1).
    py_unfold. by rewrite Hi1.
  - unfold delete, bind at 1, get_state.
    rewrite namespace_present by (by rewrite Hl1).
    py_unfold. by rewrite Hi1.
Qed.

(** ** delete, where it is refused and where it goes through *)

Lemma matching_repeated ids l :
  NoDup (Vector.id <$> l) → ¬ NoDup ids →
  length (filter (λ v, Vector.id v ∈ ids) l) < length ids.
Proof.
  intros Hl Hids. rewrite <- (length_fmap Vector.id).
  assert (Hsub : Vector.id <$> filter (λ v, Vector.id v ∈ ids) l ⊆+ ids).
  { apply NoDup_submseteq; [by apply filter_requested_NoDup|].
    intros x (v & -> & Hv)%list_elem_of_fmap.
    by apply list_elem_of_filter in Hv as [? _]. }
  pose proof (submseteq_length _ _ Hsub) as Hle.
  destruct (decide (length ids
                    ≤ length (Vector.id <$> filter (λ v, Vector.id v ∈ ids) l)))
    as [Hge|]; [|lia].
  exfalso. apply Hids.
  apply (submseteq_length_Permutation _ _ Hsub) in Hge.
  rewrite <- Hge. by apply filter_requested_NoDup.
Qed.

(** X8: [delete] with a list of ids is refused, and removes nothing, when
    the list names an id that is not stored or names an id twice (the
    stored ids being distinct). *)
Theorem delete_refused_unchanged s ids delete_all namespace l ix :
  partition s namespace = Some (l, ix) →
  NoDup (Vector.id <$> l) →
  (∃ z, z ∈ ids ∧ z ∉ Vector.id <$> l) ∨ ¬ NoDup ids →
  delete (Some ids) delete_all namespace s = (Raise (ValueError NotAllIdsFound), s).
Proof.
  intros Hp Hnd [(z & Hz & Hzl) | Hrep].
  - by eapply delete_absent_id.
  - apply partition_lookups in Hp as [Hl Hi].
    unfold delete, bind at 1, get_state.
    rewrite namespace_present by (by rewrite Hl).
    unfold __return_ids. py_unfold. rewrite Hl. cbv beta iota.
    rewrite bool_decide_true; [done|].
    rewrite positions_in_length.
    pose proof (matching_repeated ids l Hnd Hrep). lia.
Qed.

Lemma drop_positions_fmap {A} (g : Vector.t F → A) ids (x : list nat) l i :
  (∀ j v, l !! j = Some v → (i + j ∈ x ↔ Vector.id v ∈ ids)) →
  drop_positions x i (g <$> l) = g <$> filter (λ v, Vector.id v ∉ ids) l.
Proof.
  revert i. induction l as [|v l IH]; intros i Hx; [done|].
  cbn [fmap list_fmap drop_positions]. rewrite filter_cons.
  assert (Hv : i ∈ x ↔ Vector.id v ∈ ids).
  { rewrite <- (Hx 0 v eq_refl). by rewrite Nat.add_0_r. }
  assert (Htl : drop_positions x (S i) (g <$> l)
                = g <$> filter (λ v, Vector.id v ∉ ids) l).
  { apply IH. intros j v' Hj.
    rewrite <- (Hx (S j) v' Hj). by rewrite Nat.add_succ_r. }
  change (list_fmap _ _ g l) with (g <$> l).
  case_bool_decide; destruct (decide _); cbn; try tauto; by rewrite Htl.
Qed.

(** X9: when [delete] with a list of ids goes through (the ids distinct
    and stored, and exactly half of the records requested), the partition
    holds the records whose id was not requested, in their order, over
    their rows: it is sound again. *)
Theorem delete_half_sound s ids delete_all namespace l ix :
  partition s namespace = Some (l, ix) →
  sound l ix →
  NoDup ids →
  (∀ x, x ∈ ids → x ∈ Vector.id <$> l) →
  length l = 2 * length ids →
  (delete (Some ids) delete_all namespace s).1 = Return tt
  ∧ records_of (delete (Some ids) delete_all namespace s).2 namespace
    = filter (λ v, Vector.id v ∉ ids) l
  ∧ sound_partition (delete (Some ids) delete_all namespace s).2 namespace.
Proof.
  intros Hp Hsound Hids Hsub Hhalf.
  pose proof Hsound as (Hnd & Hdim & Hrows).
  rewrite (delete_half s ids delete_all namespace l ix Hp
             (sound_length _ _ Hsound) Hnd Hids Hsub Hhalf).
  cbn [fst snd]. split; [done | split].
  - unfold records_of. cbn. by rewrite lookup_insert_eq.
  - eexists _, _. split.
    + unfold partition. cbn. by rewrite !lookup_insert_eq.
    + split; [| split]; cbn.
      * eapply sublist_NoDup; [exact Hnd|]. apply fmap_sublist, sublist_filter.
      * apply Forall_forall. intros v [_ Hv]%list_elem_of_filter.
        by apply (proj1 (Forall_forall _ _) Hdim).
      * rewrite Hrows. apply drop_positions_fmap.
        intros j v Hj. rewrite elem_of_positions_in. cbn. rewrite Nat.sub_0_r.
        split.
        -- intros (_ & v' & Hv' & Hin). by simplify_eq.
        -- intros Hin. split; [lia | eauto].
Qed.

(** X10: [delete] with [delete_all] empties the record list and the index
    of the namespace and keeps the dimension of the index; calling it again
    returns normally and changes nothing more. *)
Theorem delete_all_twice s namespace l ix :
  partition s namespace = Some (l, ix) →
  let s' := (delete None true namespace s).2 in
  (delete None true namespace s).1 = Return tt
  ∧ partition s' namespace = Some ([], IndexFlatIP.mk (IndexFlatIP.d ix) [])
  ∧ delete None true namespace s' = (Return tt, s').
Proof.
  intros Hp s'. subst s'. rewrite (delete_all_empties _ _ l ix Hp). cbn [fst snd].
  assert (Hp' : partition
                  {| local_id := <[namespace := PyList []]> (local_id s);
                     index := <[namespace := PyIndex (IndexFlatIP.reset ix)]> (index s) |}
                  namespace
                = Some ([], IndexFlatIP.mk (IndexFlatIP.d ix) [])).
  { unfold partition. cbn. by rewrite !lookup_insert_eq. }
  split; [done | split; [done|]].
  rewrite (delete_all_empties _ _ _ _ Hp'). cbn.
  by rewrite !insert_insert_eq.
Qed.

(** X11: [delete] checks the namespace before the selection: on a
    namespace that is not there it raises the [ValueError] that names the
    namespace, whatever was selected; on a namespace that is there, a call
    with neither ids nor [delete_all] raises the [ValueError] that asks for
    one of them.  The store is left as it was. *)
Theorem delete_refuses_bad_calls s (ids : option (list string)) delete_all namespace :
  (local_id s !! namespace = None →
   delete ids delete_all namespace s = (Raise (ValueError (NoNamespace namespace)), s))
  ∧ (is_Some (local_id s !! namespace) →
     delete None false namespace s = (Raise (ValueError NeedIdsOrDeleteAll), s)).
Proof.
  split; intros H.
  - by apply delete_unknown_namespace.
  - by apply delete_without_selection.
Qed.

(** ** search, in full *)









Lemma matched_rescored l lk (h : F * Z) :
  rescored l lk → matched lk h = matched l h.
Proof.
  intros [Hlen Hrec]. unfold matched. destruct (bool_decide _); [done|].
  destruct (l !! Z.to_nat h.2) as [v|] eqn:Hv.
  - destruct (Hrec _ _ Hv) as (v' & -> & _ & _ & Hsc). cbn. by rewrite Hsc.
  - apply lookup_ge_None in Hv. rewrite <- Hlen in Hv.
    apply lookup_ge_None in Hv. by rewrite Hv.
Qed.

Lemma search_without_vector s (id : option string) top_k namespace l ix :
  partition s namespace = Some (l, ix) →
  0 < IndexFlatIP.ntotal ix →
  ∃ e, search None id top_k namespace s = (Raise e, s).
Proof.
  intros [Hl Hi]%partition_lookups Hpos. unfold search, bind, get_state.
  rewrite namespace_present by (by rewrite Hl).
  py_unfold. rewrite Hi. cbv beta iota.
  rewrite bool_decide_true by done.
  destruct (bool_decide _); eauto.
Qed.

(** X13: asking the same question twice gives the same answer: the
    scores that a search writes into the stored records do not change what
    the same search returns or raises when it is run again. *)
Theorem search_again_same_answer s (vector : option (Vector.t F))
    (id : option string) top_k namespace :
  rows_agree s namespace →
  (search vector id top_k namespace (search vector id top_k namespace s).2).1
  = (search vector id top_k namespace s).1.
Proof.
  intros (l & ix & Hp & Hlen).
  destruct (decide (0 < IndexFlatIP.ntotal ix)) as [Hpos|Hz];
    [destruct vector as [q|]|].
  - destruct (search_by_vector_results s q id top_k namespace l ix Hp Hlen Hpos)
      as (lk & -> & Hres). cbn [fst snd].
    pose proof Hp as [_ Hi]%partition_lookups.
    destruct (search_by_vector_results (with_records s namespace lk) q id top_k
                namespace lk ix) as (lk' & -> & _); [| | done |].
    + unfold partition, with_records. cbn. by rewrite lookup_insert_eq, Hi.
    + destruct Hres as [-> _]. done.
    + cbn [fst]. f_equal. apply list_omap_ext, Forall_Forall2_diag, Forall_forall.
      intros h _. by apply matched_rescored.
  - destruct (search_without_vector s id top_k namespace l ix Hp Hpos) as (e & He).
    rewrite He. cbn [fst snd]. by rewrite He.
  - pose proof Hp as [Hl Hi]%partition_lookups.
    assert (Hs : search vector id top_k namespace s = (Return [], s)).
    { apply (search_empty_partition _ _ _ _ _ ix); [by rewrite Hl | done | lia]. }
    rewrite Hs. cbn [fst snd]. by rewrite Hs.
Qed.

(** X14: on a partition that holds rows, a search with no query vector
    and with no id, or with the empty string as id, raises the [ValueError]
    that asks for one of them, and leaves the store as it was. *)
Theorem search_needs_query s (id : option string) top_k namespace l ix :
  partition s namespace = Some (l, ix) →
  0 < IndexFlatIP.ntotal ix →
  id = None ∨ id = Some ""%string →
  search None id top_k namespace s = (Raise (ValueError NeedVectorOrId), s).
Proof.
  intros [Hl Hi]%partition_lookups Hpos Hid. unfold search, bind, get_state.
  rewrite namespace_present by (by rewrite Hl).
  py_unfold. rewrite Hi. cbv beta iota.
  rewrite bool_decide_true by done.
  rewrite bool_decide_false; [done|]. intros [? ?]. by destruct Hid.
Qed.

(** ** The private lookups *)

Lemma find_by_id l (v : Vector.t F) :
  NoDup (Vector.id <$> l) → v ∈ l →
  List.find (λ vector, bool_decide (Vector.id vector = Vector.id v)) l = Some v.
Proof.
  induction l as [|u l IH]; intros Hnd Hv; [by apply elem_of_nil in Hv|].
  cbn [List.find]. cbn in Hnd. apply NoDup_cons in Hnd as [Hu Hnd].
  apply elem_of_cons in Hv as [-> | Hv].
  - by rewrite bool_decide_true.
  - rewrite bool_decide_false; [by apply IH|].
    intros Heq. apply Hu. rewrite Heq. apply list_elem_of_fmap. eauto.
Qed.

Lemma find_by_absent_id l (id : string) :
  id ∉ Vector.id <$> l →
  List.find (λ vector, bool_decide (Vector.id vector = id)) l = None.
Proof.
  induction l as [|u l IH]; intros Hid; [done|].
  cbn [List.find]. rewrite bool_decide_false.
  - apply IH. intros Hin. apply Hid. by right.
  - intros Heq. apply Hid. rewrite <- Heq. by left.
Qed.

(** X15: [__return_embeddings] returns the normalized embedding of the
    stored record that has the id (the stored ids being distinct), and for
    an id that is not stored raises the [ValueError] that names the id and
    the namespace; the stored record and the store are not changed. *)
Theorem return_embeddings_spec s namespace l :
  local_id s !! namespace = Some (PyList l) →
  (∀ v, NoDup (Vector.id <$> l) → v ∈ l →
     __return_embeddings (Vector.id v) namespace s
     = (Return (normalize_L2 (Vector.embeddings v)), s))
  ∧ (∀ id, id ∉ Vector.id <$> l →
       __return_embeddings id namespace s
       = (Raise (ValueError (IdNotFound id namespace)), s)).
Proof.
  intros Hl. split.
  - intros v Hnd Hv. unfold __return_embeddings. py_unfold. rewrite Hl.
    cbv beta iota. by rewrite find_by_id.
  - intros id Hid. unfold __return_embeddings. py_unfold. rewrite Hl.
    cbv beta iota. by rewrite find_by_absent_id.
Qed.

(** X16: [__return_ids] returns the positions of the requested ids in
    increasing order, one for each id, when the ids are distinct and all
    stored (the stored ids being distinct); each position holds a record
    with a requested id. *)
Theorem return_ids_spec s namespace l ids :
  local_id s !! namespace = Some (PyList l) →
  NoDup (Vector.id <$> l) → NoDup ids →
  (∀ x, x ∈ ids → x ∈ Vector.id <$> l) →
  ∃ positions,
    __return_ids ids namespace s = (Return positions, s)
    ∧ length positions = length ids
    ∧ (∀ j, j ∈ positions ↔ ∃ v, l !! j = Some v ∧ Vector.id v ∈ ids)
    ∧ StronglySorted lt positions.
Proof.
  intros Hl Hnd Hids Hsub. exists (positions_in ids 0 l).
  assert (Hlen : length (positions_in ids 0 l) = length ids).
  { rewrite positions_in_length. by apply matching_all_present. }
  split; [| split; [done | split]].
  - unfold __return_ids. py_unfold. rewrite Hl. cbv beta iota.
    by rewrite bool_decide_false by (by rewrite Hlen; intros Hne).
  - intros j. rewrite elem_of_positions_in, Nat.sub_0_r. split.
    + by intros (_ & H).
    + intros H. split; [lia | done].
  - clear. generalize 0.
    induction l as [|v l IH]; intros i; cbn [positions_in]; [constructor|].
    case_bool_decide; [|apply IH]. constructor; [apply IH|].
    apply Forall_forall. intros j (Hle & _)%elem_of_positions_in. lia.
Qed.

(** ** Construction *)

(** X17: [__init__] takes both dictionaries or neither.  With one of them
    only, and also with both when one of them is empty, it raises the
    [ValueError] that asks for both or neither; with two non-empty
    dictionaries it keeps them as they are, and never adds the default
    namespace to them. *)
Theorem init_both_or_neither
    (local_id_ index_ : gmap (option string) (PyObj F)) (d : nat) :
  __init__ (Some local_id_) None d = Raise (ValueError BothOrNeither)
  ∧ __init__ None (Some index_) d = Raise (ValueError BothOrNeither)
  ∧ (local_id_ = ∅ ∨ index_ = ∅ →
     __init__ (Some local_id_) (Some index_) d = Raise (ValueError BothOrNeither))
  ∧ (local_id_ ≠ ∅ → index_ ≠ ∅ →
     __init__ (Some local_id_) (Some index_) d
     = Return {| local_id := local_id_; index := index_ |}).
Proof.
  split; [done | split; [done | split]].
  - intros [-> | ->]; unfold __init__.
    + by rewrite bool_decide_false by (by intros H; apply H).
    + rewrite (bool_decide_false (∅ ≠ ∅)) by (by intros H; apply H).
      by rewrite andb_false_r.
  - intros Hl Hi. unfold __init__. by rewrite !bool_decide_true.
Qed.

End MoreProperties.

(** * Further properties of persistence *)

(** ** File names *)










(** ** Saving and loading a directory *)

Section MorePersistence.
Context {F Blob : Type} `{!Codec F Blob}.

Implicit Types (self : FAISSVectorStore F) (fs : FileSystem Blob).
Implicit Types (namespaces : list (option string)) (namespace : option string).

Ltac io_unfold :=
  repeat progress
    (unfold bind, ret, raise, lift, mkdir, write_file, item, faiss_write,
       pickle_to, save_namespace;
     cbv beta iota).

(** X18: saving one namespace that the store does not have raises the
    [ValueError] that names it; the directory has been made by then, and no
    file is written. *)
Theorem save_local_unknown_namespace self (dir_path : string) namespace fs :
  local_id self !! namespace = None →
  save_local self dir_path namespace false fs
  = (Raise (ValueError (NoNamespace namespace)),
     {| dirs := {[dir_path]} ∪ dirs fs; files := files fs |}).
Proof.
  intros Hl. unfold save_local. io_unfold. by rewrite namespace_absent.
Qed.



Lemma load_each_lookup fs (path : string) namespaces
    (local_id_ index_ local_id' index' : gmap (option string) (PyObj F)) :
  load_each fs path namespaces local_id_ index_ = Return (local_id', index') →
  ∀ namespace,
    (namespace ∈ namespaces →
     ∃ ix l, read_namespace fs path namespace = Some (ix, l)
       ∧ local_id' !! namespace = Some (PyList l)
       ∧ index' !! namespace = Some (PyIndex ix))
    ∧ (namespace ∉ namespaces →
       local_id' !! namespace = local_id_ !! namespace
       ∧ index' !! namespace = index_ !! namespace).
Proof.
  revert local_id_ index_.
  induction namespaces as [|k rest IH]; intros local_id_ index_ Hload ns.
  - inversion Hload; subst. split; [by intros ?%elem_of_nil | done].
  - cbn [load_each] in Hload.
    destruct (files fs !! join path (stem k +:+ ".faiss") ≫= read_index)
      as [ixk|] eqn:Hf; [|done].
    destruct (files fs !! join path (stem k +:+ ".pkl") ≫= pickle_load)
      as [lk|] eqn:Hp; [|done].
    destruct (IH _ _ Hload ns) as [Hin Hout].
    assert (Hhead : ns ∉ rest → ns = k →
              ∃ ix l, read_namespace fs path ns = Some (ix, l)
                ∧ local_id' !! ns = Some (PyList l)
                ∧ index' !! ns = Some (PyIndex ix)).
    { intros Hrest ->. exists ixk, lk. destruct (Hout Hrest) as [-> ->].
      unfold read_namespace. rewrite Hf, Hp, !lookup_insert_eq. done. }
    split.
    + intros Hns. destruct (decide (ns ∈ rest)) as [?|Hrest]; [by apply Hin|].
      apply elem_of_cons in Hns as [-> | ?]; [by apply Hhead | done].
    + intros Hns. apply not_elem_of_cons in Hns as [Hne Hrest].
      destruct (Hout Hrest) as [-> ->]. by rewrite !lookup_insert_ne.
Qed.


Lemma load_each_fails fs (path : string) (pre post : list (option string))
    namespace (local_id_ index_ : gmap (option string) (PyObj F)) :
  (∀ k, k ∈ pre → is_Some (read_namespace fs path k)) →
  read_namespace fs path namespace = None →
  load_each fs path (pre ++ namespace :: post) local_id_ index_
  = Raise (RuntimeError (BadFiles namespace)).
Proof.
  revert local_id_ index_.
  induction pre as [|k pre IH]; intros local_id_ index_ Hpre Hbad; cbn [app load_each].
  - unfold read_namespace in Hbad.
    destruct (files fs !! join path (stem namespace +:+ ".faiss") ≫= read_index);
      [|done].
    by destruct (files fs !! join path (stem namespace +:+ ".pkl") ≫= pickle_load).
  - destruct (Hpre k) as [[ixk lk] Hk]; [left|]. unfold read_namespace in Hk.
    destruct (files fs !! join path (stem k +:+ ".faiss") ≫= read_index); [|done].
    destruct (files fs !! join path (stem k +:+ ".pkl") ≫= pickle_load); [|done].
    apply IH; [|done]. intros k' Hk'. apply Hpre. by right.
Qed.

(** X19: [load_local] does not skip a namespace: without the directory it
    raises the [ValueError] that names the directory, and at the first
    requested namespace of which a file is missing or unreadable it raises
    the [RuntimeError] that names that namespace, so no store is built. *)
Theorem load_local_fails_loudly (pre post : list (option string)) namespace
    (dir_path : string) (d : nat) fs :
  (dir_path ∉ dirs fs →
   load_local (pre ++ namespace :: post) dir_path d fs
   = Raise (ValueError (NoDirectory dir_path)))
  ∧ (dir_path ∈ dirs fs →
     (∀ k, k ∈ pre → is_Some (read_namespace fs dir_path k)) →
     read_namespace fs dir_path namespace = None →
     load_local (pre ++ namespace :: post) dir_path d fs
     = Raise (RuntimeError (BadFiles namespace))).
Proof.
  split.
  - intros Hdir. unfold load_local. by rewrite bool_decide_true.
  - intros Hdir Hpre Hbad. unfold load_local.
    rewrite bool_decide_false by (by intros Hn; apply Hn).
    by rewrite load_each_fails.
Qed.

Lemma load_local_returns namespaces (dir_path : string) (d : nat) fs
    (store : FAISSVectorStore F) :
  load_local namespaces dir_path d fs = Return store →
  ∀ namespace, namespace ∈ namespaces →
    ∃ ix l, read_namespace fs dir_path namespace = Some (ix, l)
      ∧ partition store namespace = Some (l, ix).
Proof.
  unfold load_local. destruct (bool_decide (dir_path ∉ dirs fs)); [done|].
  destruct (load_each fs dir_path namespaces ∅ ∅) as [[local_id_ index_]|e] eqn:E;
    [|done].
  cbn [obind fst snd]. intros Hinit ns Hns.
  destruct (load_each_lookup _ _ _ _ _ _ _ E ns) as [Hin _].
  destruct (Hin Hns) as (ix & l & Hread & Hl & Hi).
  exists ix, l. split; [done|].
  case_bool_decide as Hnone.
  - assert (ns ≠ None).
    { intros ->. apply Hnone. apply elem_of_dom. by rewrite Hi. }
    rewrite init_both in Hinit by apply insert_non_empty. inversion Hinit; subst.
    unfold partition. cbn. by rewrite !lookup_insert_ne, Hl, Hi.
  - unfold __init__ in Hinit. destruct (_ && _); [|done].
    inversion Hinit; subst. unfold partition. cbn. by rewrite Hl, Hi.
Qed.

(** X20: when [load_local] returns a store, every requested namespace is
    in it as a partition: the index read from its [.faiss] file paired with
    the record list read from its [.pkl] file. *)
Theorem load_local_loads_all namespaces (dir_path : string) (d : nat) fs
    (store : FAISSVectorStore F) namespace :
  load_local namespaces dir_path d fs = Return store →
  namespace ∈ namespaces →
  ∃ ix l, read_namespace fs dir_path namespace = Some (ix, l)
    ∧ records_of store namespace = l
    ∧ rows_of store namespace = IndexFlatIP.rows ix
    ∧ index store !! namespace = Some (PyIndex ix).
Proof.
  intros Hload Hns.
  destruct (load_local_returns _ _ _ _ _ Hload _ Hns) as (ix & l & Hread & Hp).
  apply partition_lookups in Hp as [Hl Hi].
  exists ix, l. unfold records_of, rows_of. by rewrite Hl, Hi.
Qed.


End MorePersistence.

(** ** Saving to and loading from firebase storage *)

Section MoreFirebase.
Context {F Blob : Type} `{!Codec F Blob}.

Implicit Types (self : FAISSVectorStore F) (bucket : gmap string Blob).
Implicit Types (namespace : option string).

Lemma blob_names_differ (path : string) namespace :
  index_blob path namespace ≠ local_id_blob path namespace.
Proof.
  unfold index_blob, local_id_blob. intros H.
  apply (inj (String.app path)) in H. apply (inj (String.app "/")) in H.
  apply (f_equal (String.get 0)) in H.
  destruct namespace; vm_compute in H; discriminate.
Qed.

Lemma upload_namespace_spec self (path : string) namespace l ix bucket :
  partition self namespace = Some (l, ix) →
  upload_namespace self path namespace bucket
  = (Return tt,
     <[local_id_blob path namespace := pickle_dump l]>
       (<[index_blob path namespace := write_index ix]> bucket)).
Proof.
  intros [Hl Hi]%partition_lookups. unfold upload_namespace.
  unfold bind, lift, item, upload_from_string. rewrite Hi. cbn.
  by rewrite Hl.
Qed.

(** X22: [save_firebase_storage] of a namespace that the store does not
    have raises the [ValueError] that names it, and uploads nothing. *)
Theorem save_firebase_unknown_namespace self (uid file_id file_path : string)
    namespace bucket :
  local_id self !! namespace = None →
  save_firebase_storage self uid file_id file_path namespace false bucket
  = (Raise (ValueError (NoNamespace namespace)), bucket).
Proof.
  intros Hl. unfold save_firebase_storage. by rewrite namespace_absent.
Qed.

(** X23: a namespace saved on its own to firebase storage, the default
    one or any other, is read back as it was: [save_firebase_storage]
    uploads its two blobs and touches no other blob, and
    [load_firebase_storage] of that namespace, with the same user, file
    and path, returns a store in which the namespace has the same records
    in the same order over the same index (the two serialisers reading back
    what they wrote). *)
Theorem save_firebase_then_load `{!CodecLaws F Blob} self
    (uid file_id file_path : string) namespace (d : nat) bucket l ix :
  partition self namespace = Some (l, ix) →
  ∃ bucket' store,
    save_firebase_storage self uid file_id file_path namespace false bucket
    = (Return tt, bucket')
    ∧ (∀ name,
         name ≠ index_blob (documents_path uid file_id file_path) namespace →
         name ≠ local_id_blob (documents_path uid file_id file_path) namespace →
         bucket' !! name = bucket !! name)
    ∧ load_firebase_storage uid file_id [namespace] file_path d bucket' = Return store
    ∧ partition store namespace = Some (l, ix).
Proof.
  intros Hp. pose proof Hp as [Hl Hi]%partition_lookups.
  set (path := documents_path uid file_id file_path).
  pose proof (blob_names_differ path namespace) as Hne.
  set (bucket' := <[local_id_blob path namespace := pickle_dump l]>
                    (<[index_blob path namespace := write_index ix]> bucket)).
  assert (Hload : download_each bucket' path [namespace] ∅ ∅
                  = Return (<[namespace := PyList l]> ∅, <[namespace := PyIndex ix]> ∅)).
  { cbn [download_each]. subst bucket'.
    rewrite lookup_insert_ne by (by apply not_eq_sym).
    rewrite !lookup_insert_eq. cbn.
    by rewrite read_write_index, pickle_load_dump. }
  assert (Hstore : ∃ store,
            load_firebase_storage uid file_id [namespace] file_path d bucket'
            = Return store
            ∧ partition store namespace = Some (l, ix)).
  { unfold load_firebase_storage. fold path. rewrite Hload. cbn [obind fst snd].
    case_bool_decide as Hnone.
    - rewrite init_both by apply insert_non_empty. eexists. split; [done|].
      assert (namespace ≠ None).
      { intros ->. apply Hnone. rewrite dom_insert_L. set_solver. }
      unfold partition. cbn [local_id index].
      rewrite (lookup_insert_ne (<[namespace := PyList l]> ∅)) by done.
      rewrite (lookup_insert_ne (<[namespace := PyIndex ix]> ∅)) by done.
      by rewrite !lookup_insert_eq.
    - rewrite init_both by apply insert_non_empty. eexists. split; [done|].
      unfold partition. cbn [local_id index]. by rewrite !lookup_insert_eq. }
  destruct Hstore as (store & Hstore & Hpart).
  exists bucket', store. split; [| split; [| done]].
  - unfold save_firebase_storage. fold path.
    rewrite namespace_present by (by rewrite Hl).
    by apply upload_namespace_spec.
  - intros name Hn1 Hn2. subst bucket'. by rewrite !lookup_insert_ne.
Qed.

End MoreFirebase.

(** ** The backends that forward to a service *)

Section MoreRemote.
Context {F : Type}.

Implicit Types (vectors pre post : list (Vector.t F)) (ids : gset string).
Implicit Types (metadata : gmap string (MetaVal F)).

Lemma pinecone_rows_prefix metadata ids pre post :
  Forall (λ v, Vector.id v ≠ ""%string) pre →
  NoDup (Vector.id <$> pre) →
  (∀ v, v ∈ pre → Vector.id v ∉ ids) →
  pinecone_rows metadata ids (pre ++ post)
  = match pinecone_rows metadata (list_to_set (Vector.id <$> pre) ∪ ids) post with
    | inl e => inl e
    | inr data => inr ((pinecone_row metadata <$> pre) ++ data)
    end.
Proof.
  revert ids. induction pre as [|v pre IH]; intros ids Hid Hnd Hids.
  - cbn. replace (∅ ∪ ids) with ids by set_solver.
    by destruct (pinecone_rows _ _ _).
  - cbn [app pinecone_rows fmap list_fmap list_to_set].
    apply Forall_cons in Hid as [Hv Hid]. cbn in Hnd.
    apply NoDup_cons in Hnd as [Hvpre Hnd].
    rewrite bool_decide_false by done.
    rewrite bool_decide_false by (apply Hids; left).
    rewrite IH; [| done | done |].
    + replace (list_to_set (Vector.id <$> pre) ∪ ({[Vector.id v]} ∪ ids))
        with ({[Vector.id v]} ∪ list_to_set (list_fmap _ _ Vector.id pre) ∪ ids)
        by set_solver.
      by destruct (pinecone_rows _ _ _).
    + intros u Hu [Heq%elem_of_singleton | Hin]%elem_of_union.
      * apply Hvpre. rewrite <- Heq. apply list_elem_of_fmap. eauto.
      * apply (Hids u); [by right | done].
Qed.

Lemma pinecone_rows_inv metadata ids vectors data :
  pinecone_rows metadata ids vectors = inr data →
  Forall (λ v, Vector.id v ≠ ""%string) vectors
  ∧ NoDup (Vector.id <$> vectors)
  ∧ (∀ v, v ∈ vectors → Vector.id v ∉ ids).
Proof.
  revert ids data. induction vectors as [|v rest IH]; intros ids data H.
  - split; [constructor | split; [constructor | by intros ? ?%elem_of_nil]].
  - cbn [pinecone_rows] in H.
    case_bool_decide as Hempty; [done|]. case_bool_decide as Hseen; [done|].
    destruct (pinecone_rows metadata ({[Vector.id v]} ∪ ids) rest) as [|data'] eqn:E;
      [done|].
    destruct (IH _ _ E) as (Hid & Hnd & Hids).
    split; [by constructor | split].
    + cbn. apply NoDup_cons. split; [|done].
      intros (u & Heq & Hu)%list_elem_of_fmap. apply (Hids u Hu). set_solver.
    + intros u [-> | Hu]%elem_of_cons; [done|].
      intros Hin. apply (Hids u Hu). set_solver.
Qed.

(** X24: [PineconeVectorStore.add] sends all records or none: it calls
    [upsert], once, exactly when no record has an empty id and no two records
    share an id, with one row for each record in the order of the call (the
    id, the embedding, and the metadata of the record laid over the metadata
    of the call); otherwise it raises before anything is sent. *)
Theorem pinecone_add_all_or_nothing vectors (namespace : option string)
    (batch_size : option nat) (show_progress : bool)
    (kwargs_metadata : option (gmap string (MetaVal F)))
    (sent : list upsert_request) :
  let result := pinecone_add vectors namespace batch_size show_progress
                  kwargs_metadata sent in
  (result.1 = inr tt
   ↔ Forall (λ v, Vector.id v ≠ ""%string) vectors ∧ NoDup (Vector.id <$> vectors))
  ∧ (result.1 = inr tt →
     result.2
     = sent ++ [{| upsert_data := pinecone_row (default ∅ kwargs_metadata) <$> vectors;
                   upsert_namespace := namespace;
                   upsert_batch_size := batch_size;
                   upsert_show_progress := show_progress |}])
  ∧ (result.1 ≠ inr tt → result.2 = sent).
Proof.
  cbn zeta. unfold pinecone_add.
  assert (Hok : Forall (λ v, Vector.id v ≠ ""%string) vectors →
                NoDup (Vector.id <$> vectors) →
                pinecone_rows (default ∅ kwargs_metadata) ∅ vectors
                = inr (pinecone_row (default ∅ kwargs_metadata) <$> vectors)).
  { intros Hid Hnd. rewrite <- (app_nil_r vectors) at 1.
    rewrite pinecone_rows_prefix by (done || by intros ? _ ?%elem_of_empty).
    cbn. by rewrite app_nil_r. }
  destruct (pinecone_rows (default ∅ kwargs_metadata) ∅ vectors) as [e|data] eqn:E.
  - split; [split; [done|] | split; done].
    intros [Hid Hnd]. specialize (Hok Hid Hnd). congruence.
  - destruct (pinecone_rows_inv _ _ _ _ E) as (Hid & Hnd & _).
    specialize (Hok Hid Hnd).
    assert (data = pinecone_row (default ∅ kwargs_metadata) <$> vectors) as ->
      by congruence.
    split; [done | split; [done|]]. by intros H.
Qed.

(** X25: the first record that breaks a rule decides how
    [PineconeVectorStore.add] fails: an empty id is reported for it, also
    when the empty id repeats, and else the id that an earlier record of
    the call has already. *)
Theorem pinecone_add_first_offender pre (v : Vector.t F) post
    (namespace : option string) (batch_size : option nat) (show_progress : bool)
    (kwargs_metadata : option (gmap string (MetaVal F)))
    (sent : list upsert_request) :
  Forall (λ u, Vector.id u ≠ ""%string) pre →
  NoDup (Vector.id <$> pre) →
  (Vector.id v = ""%string →
   pinecone_add (pre ++ v :: post) namespace batch_size show_progress
     kwargs_metadata sent = (inl EmptyId, sent))
  ∧ (Vector.id v ≠ ""%string → Vector.id v ∈ Vector.id <$> pre →
     pinecone_add (pre ++ v :: post) namespace batch_size show_progress
       kwargs_metadata sent = (inl (NotUnique (Vector.id v)), sent)).
Proof.
  intros Hid Hnd. unfold pinecone_add.
  rewrite pinecone_rows_prefix by (done || by intros ? _ ?%elem_of_empty).
  cbn [pinecone_rows]. split.
  - intros Hv. by rewrite bool_decide_true.
  - intros Hv Hin. rewrite bool_decide_false by done.
    rewrite bool_decide_true; [done|].
    apply elem_of_union. left. by apply elem_of_list_to_set.
Qed.

(** X26: without a query vector, each record that
    [PineconeVectorStore.search] builds has the id, the values and the
    metadata of its match, plus the score; nothing passes from one match
    to the next. *)
Theorem pinecone_results_without_query (matches : list (Match (F:=F))) :
  pinecone_results None matches
  = ((λ m, Vector.mk (match_id m) (match_values m) (after_match ∅ m)) <$> matches,
     None).
Proof.
  induction matches as [|m rest IH]; [done|].
  cbn [pinecone_results fmap option_fmap option_map from_option].
  change (option_map _ None) with (@None (Vector.t F)).
  by rewrite IH.
Qed.

Lemma pinecone_results_turns (q : Vector.t F) (matches : list (Match (F:=F))) :
  (∀ i m, matches !! i = Some m →
     (pinecone_results (Some q) matches).1 !! i
     = Some (Vector.mk (match_id m) (match_values m)
               (foldl after_match (Vector.metadata q) (take (S i) matches))))
  ∧ (pinecone_results (Some q) matches).2
    = Some (Vector.mk (Vector.id q) (Vector.embeddings q)
              (foldl after_match (Vector.metadata q) matches)).
Proof.
  revert q. induction matches as [|m rest IH]; intros q.
  - split; [by intros i m ?|by destruct q].
  - cbn [pinecone_results fmap option_fmap option_map from_option fst snd].
    destruct (IH (Vector.mk (Vector.id q) (Vector.embeddings q)
                    (after_match (Vector.metadata q) m))) as [Hres Hq].
    split; [|exact Hq].
    intros [|i] m' Hm'; cbn in Hm'.
    + inversion Hm'; subst. reflexivity.
    + exact (Hres i m' Hm').
Qed.

Lemma pinecone_results_fields (vector : option (Vector.t F))
    (matches : list (Match (F:=F))) :
  Vector.id <$> (pinecone_results vector matches).1 = match_id <$> matches
  ∧ Vector.embeddings <$> (pinecone_results vector matches).1 = match_values <$> matches.
Proof.
  revert vector. induction matches as [|m rest IH]; intros vector; [done|].
  cbn [pinecone_results fst]. rewrite !fmap_cons. cbn [Vector.id Vector.embeddings].
  destruct (IH ((λ q, Vector.mk (Vector.id q) (Vector.embeddings q)
                        (after_match (from_option Vector.metadata ∅ vector) m))
                  <$> vector)) as [-> ->].
  done.
Qed.

(** X27: with a query vector, [PineconeVectorStore.search] works on the
    metadata dictionary of the query itself.  The records returned have the
    ids and the values of the matches, in order; the query of the caller is
    left with its own metadata overlaid, match after match, with the
    metadata of the match and its score; and the last record returned
    carries exactly the metadata the query is left with, so the entries of
    the query and of every other match are in it. *)
Theorem pinecone_results_with_query (q : Vector.t F) (matches : list (Match (F:=F))) :
  let result := pinecone_results (Some q) matches in
  Vector.id <$> result.1 = match_id <$> matches
  ∧ Vector.embeddings <$> result.1 = match_values <$> matches
  ∧ result.2
    = Some (Vector.mk (Vector.id q) (Vector.embeddings q)
              (foldl after_match (Vector.metadata q) matches))
  ∧ (matches ≠ [] →
     Vector.metadata <$> last result.1
     = Some (foldl after_match (Vector.metadata q) matches)).
Proof.
  cbv zeta.
  destruct (pinecone_results_fields (Some q) matches) as [Hid Hemb].
  destruct (pinecone_results_turns q matches) as [Hres Hq].
  split; [exact Hid | split; [exact Hemb | split; [exact Hq|]]].
  intros Hne.
  assert (Hlen : length (pinecone_results (Some q) matches).1 = length matches).
  { by rewrite <- (length_fmap Vector.id), Hid, length_fmap. }
  rewrite last_lookup, Hlen.
  destruct (matches !! pred (length matches)) as [m|] eqn:Hm.
  - rewrite (Hres _ _ Hm). cbn [fmap option_fmap option_map Vector.metadata].
    rewrite take_ge; [done|]. destruct matches; [done|cbn; lia].
  - apply lookup_ge_None in Hm. destruct matches; [done|cbn in Hm; lia].
Qed.

Lemma supabase_add_prefix pre post (sent : list (insert_row (F:=F))) :
  Forall (λ v, Vector.embeddings v ≠ []) pre →
  supabase_add (pre ++ post) sent = supabase_add post (sent ++ (supabase_row <$> pre)).
Proof.
  revert sent. induction pre as [|v pre IH]; intros sent Hpre.
  - by rewrite app_nil_r.
  - apply Forall_cons in Hpre as [Hv Hpre]. cbn [app supabase_add].
    rewrite bool_decide_false by done. rewrite IH by done.
    by rewrite <- app_assoc.
Qed.

(** X28: [SupabaseVectorStore.add] inserts record by record and is not
    undone: at the first record with no embedding it raises, after the
    rows of the records before it have been inserted; with no such record it
    inserts a row for each record, in order, with the key "id" only for
    the records whose id is not empty. *)
Theorem supabase_add_inserts_prefix pre post (sent : list (insert_row (F:=F))) :
  Forall (λ v, Vector.embeddings v ≠ []) pre →
  supabase_add pre sent = (inr tt, sent ++ (supabase_row <$> pre))
  ∧ (∀ v, Vector.embeddings v = [] →
       supabase_add (pre ++ v :: post) sent
       = (inl EmptyEmbeddings, sent ++ (supabase_row <$> pre))).
Proof.
  intros Hpre. split.
  - rewrite <- (app_nil_r pre) at 1. by rewrite supabase_add_prefix.
  - intros v Hv. rewrite supabase_add_prefix by done. cbn.
    by rewrite bool_decide_true.
Qed.

End MoreRemote.

(** * The further properties at the scenarios *)

Ltac prove_sound :=
  split;
  [ apply (bool_decide_unpack _); vm_compute; exact I
  | split; [repeat constructor | vm_compute; reflexivity] ].


Lemma add_keeps_sound_witness :
  sound_partition (add [rec_c; rec_a] None store_ab).2 None
  ∧ partition (add [rec_c; rec_a] None store_ab).2 None
    = Some ([rec_a; rec_b], IndexFlatIP.mk 2 [[1; 0]; [0; 1]]%float).
Proof.
  destruct (add_keeps_sound store_ab [rec_c; rec_a] None [rec_a; rec_b]
              (IndexFlatIP.mk 2 [[1; 0]; [0; 1]]%float)) as [Hs Hp].
  - vm_compute. reflexivity.
  - prove_sound.
  - split; [exact Hs | apply Hp; vm_compute; discriminate].
Defined.

Lemma search_keeps_sound_witness :
  sound_partition (search (Some rec_c) None 2 None store_ab).2 None
  ∧ Vector.id <$> records_of (search (Some rec_c) None 2 None store_ab).2 None
    = Vector.id <$> records_of store_ab None
  ∧ Vector.embeddings <$> records_of (search (Some rec_c) None 2 None store_ab).2 None
    = Vector.embeddings <$> records_of store_ab None
  ∧ rows_of (search (Some rec_c) None 2 None store_ab).2 None = rows_of store_ab None.
Proof.
  apply (search_keeps_sound store_ab (Some rec_c) None 2 None).
  exists [rec_a; rec_b], (IndexFlatIP.mk 2 [[1; 0]; [0; 1]]%float).
  split; [vm_compute; reflexivity | prove_sound].
Defined.

Lemma run_keeps_sound_store_witness :
  sound_store (run (CallAdd [rec_a] (Some "docs"%string)) store0).
Proof.
  apply (run_keeps_sound_store (CallAdd [rec_a] (Some "docs"%string)) store0).
  - exact I.
  - apply (init_sound_store 2). reflexivity.
Defined.

Lemma reachable_store_sound_witness :
  sound_store
    (foldl (λ s c, run c s) store0
       [CallAdd [rec_a; rec_b] None; CallSearch (Some rec_c) None 2 None;
        CallAdd [rec_a] None; CallDeleteAll None; CallAdd [rec_wide] None])
  ∧ sound_partition
      (foldl (λ s c, run c s) store0
         [CallAdd [rec_a; rec_b] None; CallSearch (Some rec_c) None 2 None;
          CallAdd [rec_a] None; CallDeleteAll None; CallAdd [rec_wide] None])
      None.
Proof.
  apply (reachable_store_sound 2).
  - reflexivity.
  - repeat constructor.
Defined.


Lemma add_nothing_to_new_namespace_witness :
  (add [] (Some "docs"%string) store0).1 = Raise IndexError
  ∧ (add [rec_a] (Some "docs"%string) (add [] (Some "docs"%string) store0).2).1
    = Raise KeyError
  ∧ (search (Some rec_a) None 1 (Some "docs"%string)
       (add [] (Some "docs"%string) store0).2).1 = Raise KeyError.
Proof.
  destruct (add_nothing_to_new_namespace store0 (Some "docs"%string))
    as (H1 & _ & _ & H4 & H5 & _); [vm_compute; reflexivity..|].
  split; [exact H1 | split; [exact (H4 rec_a []) | exact (H5 (Some rec_a) None 1)]].
Defined.

Lemma delete_refused_unchanged_witness :
  delete (Some ["a"; "z"]%string) false None store_ab
  = (Raise (ValueError NotAllIdsFound), store_ab)
  ∧ delete (Some ["a"; "a"]%string) false None store_ab
    = (Raise (ValueError NotAllIdsFound), store_ab).
Proof.
  split.
  - apply (delete_refused_unchanged store_ab ["a"; "z"]%string false None
             [rec_a; rec_b] (IndexFlatIP.mk 2 [[1; 0]; [0; 1]]%float)).
    + vm_compute. reflexivity.
    + apply (bool_decide_unpack _). vm_compute. exact I.
    + left. exists "z"%string. split; apply (bool_decide_unpack _); vm_compute; exact I.
  - apply (delete_refused_unchanged store_ab ["a"; "a"]%string false None
             [rec_a; rec_b] (IndexFlatIP.mk 2 [[1; 0]; [0; 1]]%float)).
    + vm_compute. reflexivity.
    + apply (bool_decide_unpack _). vm_compute. exact I.
    + right. apply (bool_decide_unpack _). vm_compute. exact I.
Defined.

Lemma delete_half_sound_witness :
  (delete (Some ["a"%string]) false None store_ab).1 = Return tt
  ∧ records_of (delete (Some ["a"%string]) false None store_ab).2 None
    = filter (λ v, Vector.id v ∉ ["a"%string]) [rec_a; rec_b]
  ∧ sound_partition (delete (Some ["a"%string]) false None store_ab).2 None.
Proof.
  apply (delete_half_sound store_ab ["a"%string] false None [rec_a; rec_b]
           (IndexFlatIP.mk 2 [[1; 0]; [0; 1]]%float)).
  - vm_compute. reflexivity.
  - prove_sound.
  - apply (bool_decide_unpack _). vm_compute. exact I.
  - intros x Hx. apply list_elem_of_singleton in Hx as ->.
    apply (bool_decide_unpack _). vm_compute. exact I.
  - reflexivity.
Defined.

Lemma delete_all_twice_witness :
  (delete None true None store_ab).1 = Return tt
  ∧ partition (delete None true None store_ab).2 None
    = Some ([], IndexFlatIP.mk 2 [])
  ∧ delete None true None (delete None true None store_ab).2
    = (Return tt, (delete None true None store_ab).2).
Proof.
  apply (delete_all_twice store_ab None [rec_a; rec_b]
           (IndexFlatIP.mk 2 [[1; 0]; [0; 1]]%float)).
  vm_compute. reflexivity.
Defined.

Lemma search_needs_query_witness :
  search None (Some ""%string) 1 None store_ab
  = (Raise (ValueError NeedVectorOrId), store_ab).
Proof.
  apply (search_needs_query store_ab (Some ""%string) 1 None [rec_a; rec_b]
           (IndexFlatIP.mk 2 [[1; 0]; [0; 1]]%float)).
  - vm_compute. reflexivity.
  - vm_compute. lia.
  - by right.
Defined.

Lemma return_embeddings_spec_witness :
  __return_embeddings "c" None store_abc
  = (Return (normalize_L2 [3; 4]%float), store_abc)
  ∧ __return_embeddings "z" None store_abc
    = (Raise (ValueError (IdNotFound "z" None)), store_abc).
Proof.
  destruct (return_embeddings_spec store_abc None [rec_a; rec_b; rec_c])
    as [Hfound Habsent]; [vm_compute; reflexivity|].
  split.
  - apply (Hfound rec_c).
    + apply (bool_decide_unpack _). vm_compute. exact I.
    + do 2 right. left.
  - apply Habsent. apply (bool_decide_unpack _). vm_compute. exact I.
Defined.

Lemma return_ids_spec_witness :
  ∃ positions,
    __return_ids ["c"; "a"]%string None store_abc = (Return positions, store_abc)
    ∧ length positions = 2
    ∧ (∀ j, j ∈ positions ↔
         ∃ v, [rec_a; rec_b; rec_c] !! j = Some v ∧ Vector.id v ∈ ["c"; "a"]%string)
    ∧ StronglySorted lt positions.
Proof.
  apply (return_ids_spec store_abc None [rec_a; rec_b; rec_c] ["c"; "a"]%string).
  - vm_compute. reflexivity.
  - apply (bool_decide_unpack _). vm_compute. exact I.
  - apply (bool_decide_unpack _). vm_compute. exact I.
  - intros x Hx. apply (bool_decide_unpack _).
    apply elem_of_cons in Hx as [-> | Hx]; [vm_compute; exact I|].
    apply list_elem_of_singleton in Hx as ->. vm_compute. exact I.
Defined.

Lemma save_local_unknown_namespace_witness :
  save_local store_ab "data" (Some "docs"%string) false fs0
  = (Raise (ValueError (NoNamespace (Some "docs"%string))),
     {| dirs := {["data"%string]} ∪ dirs fs0; files := files fs0 |}).
Proof.
  apply (save_local_unknown_namespace store_ab "data" (Some "docs"%string) fs0).
  vm_compute. reflexivity.
Defined.

Lemma load_local_loads_all_witness :
  ∃ ix l,
    read_namespace (save_local store_docs "data" None true fs0).2 "data"
      (Some "docs"%string) = Some (ix, l)
    ∧ records_of store_docs (Some "docs"%string) = l
    ∧ rows_of store_docs (Some "docs"%string) = IndexFlatIP.rows ix
    ∧ index store_docs !! Some "docs"%string = Some (PyIndex ix).
Proof.
  apply (load_local_loads_all [Some "docs"%string; None] "data" 2
           (save_local store_docs "data" None true fs0).2 store_docs
           (Some "docs"%string)).
  - vm_compute. reflexivity.
  - left.
Defined.



Lemma save_firebase_unknown_namespace_witness :
  save_firebase_storage store_ab "u1" "f1" "" (Some "docs"%string) false
    (∅ : gmap string file_content)
  = (Raise (ValueError (NoNamespace (Some "docs"%string))), ∅).
Proof.
  apply (save_firebase_unknown_namespace store_ab "u1" "f1" "" (Some "docs"%string) ∅).
  vm_compute. reflexivity.
Defined.

Lemma save_firebase_then_load_witness :
  ∃ (bucket' : gmap string file_content) store,
    save_firebase_storage store_docs "u1" "f1" "" (Some "docs"%string) false ∅
    = (Return tt, bucket')
    ∧ (∀ name,
         name ≠ index_blob (documents_path "u1" "f1" "") (Some "docs"%string) →
         name ≠ local_id_blob (documents_path "u1" "f1" "") (Some "docs"%string) →
         bucket' !! name = (∅ : gmap string file_content) !! name)
    ∧ load_firebase_storage "u1" "f1" [Some "docs"%string] "" 2 bucket' = Return store
    ∧ partition store (Some "docs"%string)
      = Some ([rec_a], IndexFlatIP.mk 2 [[1; 0]%float]).
Proof.
  apply (save_firebase_then_load store_docs "u1" "f1" "" (Some "docs"%string) 2 ∅
           [rec_a] (IndexFlatIP.mk 2 [[1; 0]%float])).
  vm_compute. reflexivity.
Defined.

Lemma pinecone_add_first_offender_witness :
  pinecone_add ([rec_a] ++ rec_unnamed :: [rec_a]) None None true None []
  = (inl EmptyId, [])
  ∧ pinecone_add ([rec_a; rec_b] ++ rec_a :: []) None None true None []
    = (inl (NotUnique "a"), []).
Proof.
  split.
  - apply (pinecone_add_first_offender [rec_a] rec_unnamed [rec_a] None None true None []).
    + repeat constructor; discriminate.
    + apply (bool_decide_unpack _). vm_compute. exact I.
    + reflexivity.
  - apply (pinecone_add_first_offender [rec_a; rec_b] rec_a [] None None true None []).
    + repeat constructor; discriminate.
    + apply (bool_decide_unpack _). vm_compute. exact I.
    + discriminate.
    + apply (bool_decide_unpack _). vm_compute. exact I.
Defined.

Lemma supabase_add_inserts_prefix_witness :
  supabase_add [rec_a; rec_unnamed] []
  = (inr tt, [] ++ (supabase_row <$> [rec_a; rec_unnamed]))
  ∧ supabase_add ([rec_a; rec_unnamed] ++ Vector.mk "e" [] ∅ :: [rec_b]) []
    = (inl EmptyEmbeddings, [] ++ (supabase_row <$> [rec_a; rec_unnamed])).
Proof.
  destruct (supabase_add_inserts_prefix [rec_a; rec_unnamed] [rec_b] [])
    as [Hall Hstop]; [repeat constructor; discriminate|].
  split; [exact Hall | exact (Hstop (Vector.mk "e" [] ∅) eq_refl)].
Defined.


Lemma search_again_same_answer_witness :
  (search (Some rec_c) None 2 None (search (Some rec_c) None 2 None store_ab).2).1
  = (search (Some rec_c) None 2 None store_ab).1.
Proof.
  apply (search_again_same_answer store_ab (Some rec_c) None 2 None).
  exists [rec_a; rec_b], (IndexFlatIP.mk 2 [[1; 0]; [0; 1]]%float).
  split; [vm_compute; reflexivity | reflexivity].
Defined.

(** The metadata of the first match passes into the record built for the
    second one when the search has a query vector. *)
Example pinecone_metadata_carries_over :
  Vector.metadata <$> (pinecone_results (Some query_tagged) [match_a; match_b]).1 !! 1
  = Some {[ "tag"%string := MStr "x"; "lang"%string := MStr "en";
            "score"%string := MNum 0%float ]}.
Proof. vm_compute. reflexivity. Qed.
